(** * go-common-tools: the structured logger and the metrics wrappers

    A shallow embedding of [logger/logger.go], of the metrics package
    (registration wrappers around the Prometheus client, the
    initialization of counter vectors and the metrics server) and of the
    mock server of [testhttp/mockhttp.go], with the parts of
    the Go standard library they call: [strings], [unicode/utf8],
    [encoding/json] for a [map[string]interface{}] and the operating-system
    calls behind [io.Writer], [bufio.Writer] and [os.File].

    Go strings are byte strings: [string] of the Standard Library, one
    [ascii] per byte.  Go's [int] is modelled by [Z]; the code does no
    arithmetic on it, it only compares and prints. *)

From Stdlib Require Import ZArith NArith Lia Bool List.
From Stdlib Require Import Ascii String.
From Stdlib Require Import DecimalString DecimalZ DecimalFacts.
From Stdlib Require Import Floats.
From stdpp Require Import base option list gmap strings sorting.

Local Open Scope Z_scope.
Local Open Scope string_scope.

(** * Part I: the model *)

(** ** Bytes *)

Module Bytes.

(** The value of a byte. *)
Definition code (c : ascii) : N := N_of_ascii c.

(** [lo <= c <= hi] on byte values. *)
Definition within (lo hi : N) (c : ascii) : bool :=
  ((lo <=? code c) && (code c <=? hi))%N.

Definition dquote : ascii := ascii_of_N 34.
Definition backslash : ascii := ascii_of_N 92.
Definition newline : ascii := ascii_of_N 10.

(** A one-byte string. *)
Definition chr (c : ascii) : string := String c "".

(** [s] between double quotes. *)
Definition quoted (s : string) : string := String dquote (s +:+ chr dquote).

(** The lower-case hexadecimal digit of a value below 16 (Go's table [hex]). *)
Definition hexdigit (n : N) : ascii :=
  if (n <? 10)%N then ascii_of_N (48 + n) else ascii_of_N (87 + n).

Definition hexval (c : ascii) : option N :=
  if within 48 57 c then Some (code c - 48)%N
  else if within 97 102 c then Some (code c - 87)%N
  else if within 65 70 c then Some (code c - 55)%N
  else None.

(** [c] occurs in [s]. *)
Fixpoint occurs (c : ascii) (s : string) : bool :=
  match s with
  | "" => false
  | String a r => (code a =? code c)%N || occurs c r
  end.

End Bytes.

(** ** strings *)

Module GoStrings.
Import Bytes.

(** White space ([unicode.IsSpace]) in UTF-8: tab, newline, vertical tab,
    form feed, carriage return and space; U+0085 and U+00A0; U+1680,
    U+2000..U+200A, U+2028, U+2029, U+202F, U+205F and U+3000. *)
Definition space1 (c : ascii) : bool := within 9 13 c || (code c =? 32)%N.

Definition space2 (c c1 : ascii) : bool :=
  (code c =? 194)%N && ((code c1 =? 133)%N || (code c1 =? 160)%N).

Definition space3 (c c1 c2 : ascii) : bool :=
  (code c =? 225)%N && (code c1 =? 154)%N && (code c2 =? 128)%N
  || (code c =? 226)%N && (code c1 =? 128)%N
     && (within 128 138 c2 || within 168 169 c2 || (code c2 =? 175)%N)
  || (code c =? 226)%N && (code c1 =? 129)%N && (code c2 =? 159)%N
  || (code c =? 227)%N && (code c1 =? 128)%N && (code c2 =? 128)%N.

(** [strings.TrimLeftFunc(s, unicode.IsSpace)]. *)
Fixpoint trimLeft (s : string) : string :=
  match s with
  | "" => ""
  | String c r =>
    if space1 c then trimLeft r
    else
      match r with
      | "" => s
      | String c1 r1 =>
        if space2 c c1 then trimLeft r1
        else
          match r1 with
          | "" => s
          | String c2 r2 => if space3 c c1 c2 then trimLeft r2 else s
          end
      end
  end.

(** The string is white space only. *)
Definition allSpace (s : string) : bool :=
  match trimLeft s with
  | "" => true
  | _ => false
  end.

(** [strings.TrimRightFunc(s, unicode.IsSpace)]: the longest suffix of white
    space is dropped. *)
Fixpoint trimRight (s : string) : string :=
  match s with
  | "" => ""
  | String c r => if allSpace s then "" else String c (trimRight r)
  end.

(** [strings.TrimSpace]. *)
Definition TrimSpace (s : string) : string := trimRight (trimLeft s).

(** [s[n:]]. *)
Fixpoint drop (n : nat) (s : string) : string :=
  match n, s with
  | O, _ => s
  | S n', String _ r => drop n' r
  | S _, "" => ""
  end.

(** The loop of [Replace]: [n] occurrences are still to be replaced, all of
    them when [n] is negative; [fuel] is the length of [s] or more. *)
Fixpoint replaceFrom (fuel : nat) (s old new : string) (n : Z) : string :=
  match fuel with
  | O => s
  | S fuel' =>
    if (n =? 0)%Z then s
    else
      match s with
      | "" => ""
      | String c r =>
        if String.prefix old s
        then new +:+ replaceFrom fuel' (drop (String.length old) s) old new (n - 1)
        else String c (replaceFrom fuel' r old new n)
      end
  end.

(** [strings.Replace(s, old, new, n)] for a non-empty [old]: the first [n]
    occurrences, all of them when [n < 0].  (With an empty [old] Go inserts
    [new] between the runes; the logger never does that, and the model
    returns [s].) *)
Definition Replace (s old new : string) (n : Z) : string :=
  match old with
  | "" => s
  | _ => replaceFrom (S (String.length s)) s old new n
  end.

(** [strings.Contains(s, substr)] for a one-byte [substr]. *)
Definition ContainsByte (s : string) (c : ascii) : bool := occurs c s.

(** [strings.LastIndex(s, substr)] for a one-byte [substr]: the index of
    its last occurrence, -1 when there is none. *)
Fixpoint LastIndexByte (s : string) (c : ascii) : Z :=
  match s with
  | "" => -1
  | String a r =>
    let i := LastIndexByte r c in
    if (0 <=? i)%Z then i + 1
    else if (code a =? code c)%N then 0 else -1
  end.

End GoStrings.

(** ** unicode/utf8 *)

Module Utf8.
Import Bytes.

(** RuneSelf: bytes below 0x80 are single-byte runes. *)
Definition RuneSelf : N := 128.

Definition isASCII (c : ascii) : bool := (code c <? RuneSelf)%N.

(** A continuation byte, 0x80..0xBF. *)
Definition cont (c : ascii) : bool := within 128 191 c.

(** The well-formed two-, three- and four-byte sequences of
    [utf8.DecodeRuneInString]: the lead byte fixes the length and the range
    accepted for the second byte (tables [first] and [acceptRanges]); overlong
    forms, surrogates and values above U+10FFFF are refused. *)
Definition seq2 (c c1 : ascii) : bool := within 194 223 c && cont c1.

Definition second3 (c c1 : ascii) : bool :=
  if (code c =? 224)%N then within 160 191 c1
  else if (code c =? 237)%N then within 128 159 c1
  else cont c1.

Definition seq3 (c c1 c2 : ascii) : bool :=
  within 224 239 c && second3 c c1 && cont c2.

Definition second4 (c c1 : ascii) : bool :=
  if (code c =? 240)%N then within 144 191 c1
  else if (code c =? 244)%N then within 128 143 c1
  else cont c1.

Definition seq4 (c c1 c2 c3 : ascii) : bool :=
  within 240 244 c && second4 c c1 && cont c2 && cont c3.

(** The first rune of a string: a byte below RuneSelf, the bytes of a
    well-formed sequence, or [RuneError] of width 1. *)
Inductive Rune : Type :=
| Byte (c : ascii)
| Seq (bytes : string)
| RuneError.

(** [utf8.DecodeRuneInString]: the first rune and what follows it, [None]
    for the empty string. *)
Definition DecodeRuneInString (s : string) : option (Rune * string) :=
  match s with
  | "" => None
  | String c r =>
    if isASCII c then Some (Byte c, r)
    else
      match r with
      | String c1 r1 =>
        if seq2 c c1 then Some (Seq (String c (chr c1)), r1)
        else
          match r1 with
          | String c2 r2 =>
            if seq3 c c1 c2 then Some (Seq (String c (String c1 (chr c2))), r2)
            else
              match r2 with
              | String c3 r3 =>
                if seq4 c c1 c2 c3
                then Some (Seq (String c (String c1 (String c2 (chr c3)))), r3)
                else Some (RuneError, r)
              | "" => Some (RuneError, r)
              end
          | "" => Some (RuneError, r)
          end
      | "" => Some (RuneError, r)
      end
  end.

(** Every byte of the string is at or above RuneSelf. *)
Fixpoint allHigh (s : string) : bool :=
  match s with
  | "" => true
  | String c r => negb (isASCII c) && allHigh r
  end.

(** The loop [for i < len(s) { ... i += size }] over the runes of a string:
    [onByte] is the result for a byte below RuneSelf, [onRune] for a
    well-formed multi-byte sequence, [onError] for a byte that starts none
    ([utf8.RuneError] of width 1); the results are concatenated. *)
Fixpoint forRunes (onByte : ascii -> string) (onRune : string -> string)
    (onError : string) (s : string) : string :=
  match s with
  | "" => ""
  | String c r =>
    if isASCII c then onByte c +:+ forRunes onByte onRune onError r
    else
      let bad := onError +:+ forRunes onByte onRune onError r in
      match r with
      | String c1 r1 =>
        if seq2 c c1 then
          onRune (String c (chr c1)) +:+ forRunes onByte onRune onError r1
        else
          match r1 with
          | String c2 r2 =>
            if seq3 c c1 c2 then
              onRune (String c (String c1 (chr c2)))
                +:+ forRunes onByte onRune onError r2
            else
              match r2 with
              | String c3 r3 =>
                if seq4 c c1 c2 c3 then
                  onRune (String c (String c1 (String c2 (chr c3))))
                    +:+ forRunes onByte onRune onError r3
                else bad
              | "" => bad
              end
          | "" => bad
          end
      | "" => bad
      end
  end.

(** U+FFFD, the replacement character, in UTF-8. *)
Definition replacement : string :=
  String (ascii_of_N 239) (String (ascii_of_N 191) (chr (ascii_of_N 189))).

(** [strings.ToValidUTF8] with U+FFFD as the replacement: the text a
    string denotes once every byte that starts no well-formed sequence is
    replaced by U+FFFD.  A string is well-formed UTF-8 exactly when this
    leaves it as it is, [coerce s = s]. *)
Definition coerce (s : string) : string := forRunes chr id replacement s.

(** Every byte of the string is below RuneSelf. *)
Fixpoint allASCII (s : string) : bool :=
  match s with
  | "" => true
  | String c r => isASCII c && allASCII r
  end.

(** The UTF-8 encoding of a code point below 0x10000 ([utf8.AppendRune]);
    a surrogate half is encoded as U+FFFD (two halves are not joined: the
    encoder of this file writes no surrogate). *)
Definition encodeRune (r : N) : string :=
  if (r <? 128)%N then chr (ascii_of_N r)
  else if (r <? 2048)%N then
    String (ascii_of_N (192 + r / 64)) (chr (ascii_of_N (128 + r mod 64)))
  else if ((55296 <=? r) && (r <=? 57343))%N then replacement
  else
    String (ascii_of_N (224 + r / 4096))
      (String (ascii_of_N (128 + (r / 64) mod 64))
         (chr (ascii_of_N (128 + r mod 64)))).

End Utf8.

(** ** encoding/json *)

Module Json.
Import Bytes Utf8.

(** What an [interface{}] of a log entry can hold: a string, an int, or a
    value of a type [json.Marshal] has no encoding for (a channel, a
    function, a complex number), kept by the name of its type. *)
Inductive any : Type :=
| AString (s : string)
| AInt (n : Z)
| AOther (goType : string).

(** An [error], by its message ([err.Error()]). *)
Definition error : Type := string.

(** [htmlSafeSet]: the bytes below RuneSelf that the encoder copies; the
    others are the control bytes, the quote, the backslash, and the three
    bytes escaped for HTML. *)
Definition htmlSafe (c : ascii) : bool :=
  within 32 127 c
  && negb (existsb (N.eqb (code c)) [34; 38; 60; 62; 92]%N).

Definition u00 (c : ascii) : string :=
  String backslash (String "u" (String "0" (String "0"
    (String (hexdigit (code c / 16)) (chr (hexdigit (code c mod 16))))))).

(** The [switch b] of [appendString] for a byte below RuneSelf.  (Backspace
    and form feed are written with their short escapes, as Go does since
    1.22; older releases wrote the six-byte form, which is the same JSON
    string.) *)
Definition escapeByte (c : ascii) : string :=
  if htmlSafe c then chr c
  else if (code c =? 92)%N || (code c =? 34)%N then String backslash (chr c)
  else if (code c =? 8)%N then String backslash "b"
  else if (code c =? 12)%N then String backslash "f"
  else if (code c =? 10)%N then String backslash "n"
  else if (code c =? 13)%N then String backslash "r"
  else if (code c =? 9)%N then String backslash "t"
  else u00 c.

(** U+2028 and U+2029 as UTF-8. *)
Definition lineSep : string :=
  String (ascii_of_N 226) (String (ascii_of_N 128) (chr (ascii_of_N 168))).
Definition paraSep : string :=
  String (ascii_of_N 226) (String (ascii_of_N 128) (chr (ascii_of_N 169))).

(** A well-formed multi-byte rune is copied, but for U+2028 and U+2029. *)
Definition escapeRune (r : string) : string :=
  if decide (r = lineSep) then String backslash "u2028"
  else if decide (r = paraSep) then String backslash "u2029"
  else r.

(** What replaces a byte that is not UTF-8. *)
Definition escapeError : string := String backslash "ufffd".

(** [appendString(dst, src, escapeHTML = true)] without its quotes. *)
Definition quoteBody (src : string) : string :=
  forRunes escapeByte escapeRune escapeError src.

(** [appendString]: a JSON string literal. *)
Definition appendString (src : string) : string :=
  String dquote (quoteBody src +:+ chr dquote).

(** [strconv.AppendInt(b, n, 10)]. *)
Definition formatInt (n : Z) : string := NilZero.string_of_int (Z.to_int n).

(** The encoding of one value; an unsupported type is an
    [UnsupportedTypeError]. *)
Definition marshalValue (v : any) : string + error :=
  match v with
  | AString s => inl (appendString s)
  | AInt n => inl (formatInt n)
  | AOther t => inr ("json: unsupported type: " +:+ t)
  end.

(** A value [json.Marshal] has an encoding for. *)
Definition supported (v : any) : Prop :=
  match v with
  | AOther _ => False
  | _ => True
  end.

Definition allSupported (m : gmap string any) : Prop :=
  forall k v, m !! k = Some v -> supported v.

(** The key order of the map encoder: [sort.Slice] by [<] on the keys,
    byte by byte.  The keys of a map are distinct, so [<=] sorts them the
    same way. *)
Definition keyLe {A} (p q : string * A) : Prop := String.le p.1 q.1.

#[global] Instance keyLe_dec {A} : RelDecision (@keyLe A).
Proof. intros p q. unfold keyLe. apply _. Defined.

Definition sortedPairs {A} (m : gmap string A) : list (string * A) :=
  merge_sort keyLe (map_to_list m).

(** The members of an object, or the first error met. *)
Fixpoint marshalMembers (kvs : list (string * any)) : list string + error :=
  match kvs with
  | [] => inl []
  | (k, v) :: rest =>
    match marshalValue v with
    | inr e => inr e
    | inl j =>
      match marshalMembers rest with
      | inr e => inr e
      | inl js => inl ((appendString k +:+ ":" +:+ j) :: js)
      end
    end
  end.

(** [json.Marshal] of a [map[string]interface{}]. *)
Definition Marshal (m : gmap string any) : string + error :=
  match marshalMembers (sortedPairs m) with
  | inr e => inr e
  | inl js => inl ("{" +:+ String.concat "," js +:+ "}")
  end.

(** *** Reading a log line back

    A decoder for the fragment of JSON a log line is written in: one object
    whose members are string literals and integers, with no blank between
    the tokens.  It accepts nothing that is not JSON of this shape; a key
    met twice is kept twice, in the order of the text. *)

Inductive value : Type :=
| VString (s : string)
| VNumber (n : Z).

Definition member : Type := string * value.

(** [text] in front of what the rest of a literal decodes to. *)
Definition push {A} (text : string) (r : option (string * A)) : option (string * A) :=
  match r with
  | Some (t, rest) => Some (text +:+ t, rest)
  | None => None
  end.

(** The character a two-byte escape stands for. *)
Definition unescape (e : ascii) : option ascii :=
  if (code e =? 34)%N then Some dquote
  else if (code e =? 92)%N then Some backslash
  else if (code e =? 47)%N then Some "/"%char
  else if (code e =? 98)%N then Some (ascii_of_N 8)
  else if (code e =? 102)%N then Some (ascii_of_N 12)
  else if (code e =? 110)%N then Some (ascii_of_N 10)
  else if (code e =? 114)%N then Some (ascii_of_N 13)
  else if (code e =? 116)%N then Some (ascii_of_N 9)
  else None.

(** The code point of the four hexadecimal digits of a [\u] escape. *)
Definition hex4 (h1 h2 h3 h4 : ascii) : option N :=
  match hexval h1, hexval h2, hexval h3, hexval h4 with
  | Some a, Some b, Some c, Some d => Some (((a * 16 + b) * 16 + c) * 16 + d)%N
  | _, _, _, _ => None
  end.

(** The text of a string literal whose opening quote has been read, and
    what follows its closing quote.  A raw control byte, an unknown escape
    and a literal that does not end are refused. *)
Fixpoint unquote (s : string) : option (string * string) :=
  match s with
  | "" => None
  | String c r =>
    if (code c =? 34)%N then Some ("", r)
    else if (code c =? 92)%N then
      match r with
      | String e r1 =>
        if (code e =? 117)%N then
          match r1 with
          | String h1 (String h2 (String h3 (String h4 r2))) =>
            match hex4 h1 h2 h3 h4 with
            | Some cp => push (encodeRune cp) (unquote r2)
            | None => None
            end
          | _ => None
          end
        else
          match unescape e with
          | Some d => push (chr d) (unquote r1)
          | None => None
          end
      | "" => None
      end
    else if (code c <? 32)%N then None
    else push (chr c) (unquote r)
  end.

Definition isDigit (c : ascii) : bool := within 48 57 c.

(** The longest prefix of digits, and the rest. *)
Fixpoint spanDigits (s : string) : string * string :=
  match s with
  | "" => ("", "")
  | String c r =>
    if isDigit c then let '(d, rest) := spanDigits r in (String c d, rest)
    else ("", s)
  end.

(** An integer in the form [strconv] writes it: an optional minus sign and
    digits, with no leading zero and no negative zero. *)
Definition parseInt (s : string) : option (Z * string) :=
  let '(text, rest) :=
    match s with
    | String c r =>
      if (code c =? 45)%N then let '(d, rest) := spanDigits r in (String c d, rest)
      else spanDigits s
    | "" => ("", "")
    end in
  match NilZero.int_of_string text with
  | Some d =>
    if decide (formatInt (Z.of_int d) = text) then Some (Z.of_int d, rest) else None
  | None => None
  end.

Definition parseValue (s : string) : option (value * string) :=
  match s with
  | "" => None
  | String c r =>
    if (code c =? 34)%N then
      match unquote r with
      | Some (t, rest) => Some (VString t, rest)
      | None => None
      end
    else
      match parseInt s with
      | Some (n, rest) => Some (VNumber n, rest)
      | None => None
      end
  end.

(** One member, [key:value]. *)
Definition parseMember (s : string) : option (member * string) :=
  match s with
  | "" => None
  | String c r =>
    if (code c =? 34)%N then
      match unquote r with
      | Some (k, String colon r1) =>
        if (code colon =? 58)%N then
          match parseValue r1 with
          | Some (v, rest) => Some ((k, v), rest)
          | None => None
          end
        else None
      | _ => None
      end
    else None
  end.

(** The members after [{] or [,], up to the closing brace. *)
Fixpoint parseMembers (fuel : nat) (s : string) : option (list member * string) :=
  match fuel with
  | O => None
  | S fuel' =>
    match parseMember s with
    | Some (m, String sep rest) =>
      if (code sep =? 44)%N then
        match parseMembers fuel' rest with
        | Some (ms, rest') => Some (m :: ms, rest')
        | None => None
        end
      else if (code sep =? 125)%N then Some ([m], rest)
      else None
    | _ => None
    end
  end.

(** A whole text as one object: well-formed UTF-8, an opening brace, the
    members, the closing brace, and nothing after it. *)
Definition parseObject (s : string) : option (list member) :=
  if decide (coerce s = s) then
    match s with
    | String c r =>
      if (code c =? 123)%N then
        match r with
        | String c' "" => if (code c' =? 125)%N then Some [] else None
        | _ =>
          match parseMembers (String.length r) r with
          | Some (ms, "") => Some ms
          | _ => None
          end
        end
      else None
    | "" => None
    end
  else None.

(** What a value of a log entry reads back as. *)
Definition valueOf (v : any) : option value :=
  match v with
  | AString s => Some (VString (coerce s))
  | AInt n => Some (VNumber n)
  | AOther _ => None
  end.

Definition memberOf (kv : string * any) : option member :=
  match valueOf kv.2 with
  | Some v => Some (coerce kv.1, v)
  | None => None
  end.

Fixpoint membersOf (kvs : list (string * any)) : option (list member) :=
  match kvs with
  | [] => Some []
  | kv :: rest =>
    match memberOf kv, membersOf rest with
    | Some m, Some ms => Some (m :: ms)
    | _, _ => None
    end
  end.

Fixpoint allDigits (s : string) : bool :=
  match s with
  | "" => true
  | String c r => isDigit c && allDigits r
  end.

(** What may follow a number: nothing, or a byte that is no digit. *)
Definition stopsNumber (X : string) : bool :=
  match X with
  | "" => true
  | String c _ => negb (isDigit c)
  end.

(** The text of one member, as [marshalMembers] builds it. *)
Definition memberText (k j : string) : string := appendString k +:+ ":" +:+ j.

End Json.

(** ** How a call ends *)

Module Go.

(** A call returns, panics, or waits for ever for a mutex that is held
    ([Blocked]); [S] is the state it leaves.  [OutOfFuel] is the model's
    own: the depth given to a recursion was too small. *)
Inductive Outcome (S A : Type) : Type :=
| Returned (a : A) (s : S)
| Panicked (reason : string) (s : S)
| Blocked (s : S)
| OutOfFuel.

Arguments Returned {S A} a s.
Arguments Panicked {S A} reason s.
Arguments Blocked {S A} s.
Arguments OutOfFuel {S A}.

End Go.

(** ** The logger package *)

Module logger.
Import Bytes GoStrings Json Go.

(** *** The operating system

    An [*os.File] is the console or a file opened at a path.  An
    [io.Writer] held by a logger is a file or the [*bufio.Writer] that
    [bufio.NewWriterSize] put around one. *)
Inductive File : Type :=
| Stdout
| Opened (path : string).

Inductive Writer : Type :=
| FileWriter (f : File)
| BufioWriter (f : File) (size : Z).

#[global] Instance File_eq_dec : EqDecision File.
Proof. solve_decision. Defined.

#[global] Instance Writer_eq_dec : EqDecision Writer.
Proof. solve_decision. Defined.

(** The calls the package makes into the system. *)
Inductive Call : Type :=
| MkdirAll (path : string)
| OpenFile (path : string)
| WriteString (w : Writer) (data : string)
| Flush (w : Writer)
| CloseFile (f : File).

(** The state of the world is the calls made so far, the latest first. *)
Definition World : Type := list Call.

(** [time.Now().String()]: a text of 25 bytes or more, so that [[:23]] is
    in range. *)
Record TimeText : Type := {
  text : string;
  text_long : Nat.leb 23 (String.length text) = true
}.

(** What the program cannot decide: the host name ([""] when
    [os.Hostname] fails), the process id, the clock, and whether a call
    fails, all of which may depend on what happened before. *)
Record OS : Type := {
  os_Hostname : string;
  os_Getpid : Z;
  time_Now : World -> TimeText;
  respond : World -> Call -> option error
}.

(** One call: its error, and the world after it. *)
Definition perform (os : OS) (c : Call) (w : World) : option error * World :=
  (respond os w c, c :: w).

(** *** The logger *)

Record Logger : Type := {
  Name : string;
  Hostname : string;
  Pid : Z;
  LogLevel : Z;
  file : File;
  writer : Writer;
  isBuffered : bool;
  (** The [sync.Mutex]: [true] while it is held. *)
  lock : bool
}.

(** The levels, and the version of the record format. *)
Definition TraceLevel : Z := 10.
Definition DebugLevel : Z := 20.
Definition InfoLevel : Z := 30.
Definition WarnLevel : Z := 40.
Definition ErrorLevel : Z := 50.
Definition FatalLevel : Z := 60.
Definition BunyanSyntaxVersion : Z := 0.

(** Assignments to one field. *)
Definition setLogLevel (v : Z) (l : Logger) : Logger :=
  {| Name := Name l; Hostname := Hostname l; Pid := Pid l; LogLevel := v;
     file := file l; writer := writer l; isBuffered := isBuffered l;
     lock := lock l |}.

Definition setWriter (v : Writer) (l : Logger) : Logger :=
  {| Name := Name l; Hostname := Hostname l; Pid := Pid l; LogLevel := LogLevel l;
     file := file l; writer := v; isBuffered := isBuffered l; lock := lock l |}.

Definition setBuffered (v : bool) (l : Logger) : Logger :=
  {| Name := Name l; Hostname := Hostname l; Pid := Pid l; LogLevel := LogLevel l;
     file := file l; writer := writer l; isBuffered := v; lock := lock l |}.

Definition setLock (v : bool) (l : Logger) : Logger :=
  {| Name := Name l; Hostname := Hostname l; Pid := Pid l; LogLevel := LogLevel l;
     file := file l; writer := writer l; isBuffered := isBuffered l; lock := v |}.

(** [Set LogLevel]. *)
Definition SetLogLevel (logger : Logger) (level : string) : Logger :=
  if decide (level = "fatal") then setLogLevel FatalLevel logger
  else if decide (level = "error") then setLogLevel ErrorLevel logger
  else if decide (level = "warn") then setLogLevel WarnLevel logger
  else if decide (level = "info") then setLogLevel InfoLevel logger
  else if decide (level = "debug") then setLogLevel DebugLevel logger
  else setLogLevel TraceLevel logger.

(** [new(Logger)] leaves [LogLevel] at 0, [isBuffered] false and the mutex
    free. *)
Definition newLogger (os : OS) (name : string) (writer : Writer) (file : File) : Logger :=
  {| Name := TrimSpace name;
     Hostname := os_Hostname os;
     Pid := os_Getpid os;
     LogLevel := 0;
     file := file;
     writer := writer;
     isBuffered := false;
     lock := false |}.

(** [args] is the variadic slice: [None] when the caller gave no argument
    (a nil slice), [Some []] for an empty slice that is not nil. *)
Definition parseArgs (os : OS) (args : option (list string)) (w : World)
    : Outcome World (File + error) :=
  match args with
  | Some [] => Panicked "index out of range [0] with length 0" w
  | Some (arg0 :: _) =>
    let path := Replace (TrimSpace arg0) (chr backslash) "/" (-1) in
    let open w :=
      let '(err, w) := perform os (OpenFile path) w in
      match err with
      | Some e => Returned (inr e) w
      | None => Returned (inl (Opened path)) w
      end in
    if ContainsByte path "/" then
      let '(err, w) :=
        perform os (MkdirAll (substring 0 (Z.to_nat (LastIndexByte path "/")) path)) w in
      match err with
      | Some e => Returned (inr e) w
      | None => open w
      end
    else open w
  | None => Returned (inl Stdout) w
  end.

(** [NewLogger] and [NewBufferedLogger]: the logger, or the error of
    [parseArgs]. *)
Definition NewLogger (os : OS) (name : string) (args : option (list string))
    (w : World) : Outcome World (Logger + error) :=
  match parseArgs os args w with
  | Returned (inr err) w => Returned (inr err) w
  | Returned (inl file) w => Returned (inl (newLogger os name (FileWriter file) file)) w
  | Panicked r w => Panicked r w
  | Blocked w => Blocked w
  | OutOfFuel => OutOfFuel
  end.

Definition NewBufferedLogger (os : OS) (name : string) (bufSize : Z)
    (args : option (list string)) (w : World) : Outcome World (Logger + error) :=
  match parseArgs os args w with
  | Returned (inr err) w => Returned (inr err) w
  | Returned (inl file) w =>
    let writer := BufioWriter file bufSize in
    let logger := newLogger os name writer file in
    Returned (inl (setBuffered true logger)) w
  | Panicked r w => Panicked r w
  | Blocked w => Blocked w
  | OutOfFuel => OutOfFuel
  end.

(** [Close]: the type assertion of [logger.writer] to a [bufio.Writer]
    panics when the writer is a file. *)
Definition Close (os : OS) (logger : Logger) (w : World)
    : Outcome (Logger * World) (option error * option error) :=
  if lock logger then Blocked (logger, w)
  else
    let logger := setLock true logger in
    let flushed :=
      if isBuffered logger then
        match writer logger with
        | BufioWriter _ _ => Some (perform os (Flush (writer logger)) w)
        | FileWriter _ => None
        end
      else Some (None, w) in
    match flushed with
    | None =>
      Panicked "interface conversion: io.Writer is *os.File, not *bufio.Writer"
        (setLock false logger, w)
    | Some (flushErr, w) =>
      let '(closeErr, w) :=
        if decide (file logger = Stdout) then (None, w)
        else perform os (CloseFile (file logger)) w in
      Returned (flushErr, closeErr) (setLock false logger, w)
    end.

(** The time of a record: the first 23 bytes of the clock's text, its first
    space replaced by [T], and [Z]. *)
Definition bunyanTime (now : TimeText) : string :=
  Replace (substring 0 23 (text now)) " " "T" 1 +:+ "Z".

(** The entry [Log] starts from. *)
Definition newEntry (logger : Logger) (msg : string) (level : Z) (now : TimeText)
    : gmap string any :=
  <["hostname" := AString (Hostname logger)]>
  (<["level" := AInt level]>
  (<["msg" := AString msg]>
  (<["name" := AString (Name logger)]>
  (<["pid" := AInt (Pid logger)]>
  (<["time" := AString (bunyanTime now)]>
  (<["v" := AInt BunyanSyntaxVersion]> ∅)))))).

(** [for field, value := range extra { logEntry[field] = value }]. *)
Definition addExtra (logEntry : gmap string any) (extra : gmap string string)
    : gmap string any :=
  map_fold (fun field value entry => <[field := AString value]> entry) logEntry extra.

(** [for _, extra := range extras]. *)
Definition addExtras (logEntry : gmap string any) (extras : list (gmap string string))
    : gmap string any :=
  foldl addExtra logEntry extras.

Definition State : Type := Logger * World.

(** [Log].  The mutex is taken after the entry is built and released when
    the call returns or panics ([defer]); it is not reentrant, so taking it
    while it is held never returns.  The local [Error] is the method
    [Error] below, called with no extra fields; [fuel] bounds the depth of
    the calls of [Log] from [Log] through [Error]. *)
Fixpoint Log (os : OS) (fuel : nat) (logger : Logger) (msg : string) (level : Z)
    (extras : list (gmap string string)) (w : World) : Outcome State (option error) :=
  match fuel with
  | O => OutOfFuel
  | S fuel' =>
    let Error (logger : Logger) (msg : string) (w : World) :=
      if (ErrorLevel >=? LogLevel logger)%Z
      then Log os fuel' logger msg ErrorLevel [] w
      else Returned None (logger, w) in
    let logEntry := addExtras (newEntry logger msg level (time_Now os w)) extras in
    if lock logger then Blocked (logger, w)
    else
      let logger := setLock true logger in
      match Marshal logEntry with
      | inr err =>
        let '(_, w) :=
          perform os
            (WriteString (writer logger) ("Error marshalling log entry JSON: " +:+ err)) w in
        Returned (Some err) (setLock false logger, w)
      | inl logJson =>
        let '(r, w) :=
          perform os (WriteString (writer logger) (logJson +:+ chr newline)) w in
        match r with
        | Some err =>
          let logger := setWriter (FileWriter Stdout) logger in
          match Error logger ("Error writing to log: " +:+ err) w with
          | Returned _ (logger, w) => Returned (Some err) (setLock false logger, w)
          | Panicked reason (logger, w) => Panicked reason (setLock false logger, w)
          | Blocked s => Blocked s
          | OutOfFuel => OutOfFuel
          end
        | None => Returned None (setLock false logger, w)
        end
      end
  end.

(** The six leveled operations. *)
Definition Trace (os : OS) (fuel : nat) (logger : Logger) (msg : string)
    (extras : list (gmap string string)) (w : World) : Outcome State (option error) :=
  if (TraceLevel >=? LogLevel logger)%Z
  then Log os fuel logger msg TraceLevel extras w
  else Returned None (logger, w).

Definition Debug (os : OS) (fuel : nat) (logger : Logger) (msg : string)
    (extras : list (gmap string string)) (w : World) : Outcome State (option error) :=
  if (DebugLevel >=? LogLevel logger)%Z
  then Log os fuel logger msg DebugLevel extras w
  else Returned None (logger, w).

Definition Info (os : OS) (fuel : nat) (logger : Logger) (msg : string)
    (extras : list (gmap string string)) (w : World) : Outcome State (option error) :=
  if (InfoLevel >=? LogLevel logger)%Z
  then Log os fuel logger msg InfoLevel extras w
  else Returned None (logger, w).

Definition Warning (os : OS) (fuel : nat) (logger : Logger) (msg : string)
    (extras : list (gmap string string)) (w : World) : Outcome State (option error) :=
  if (WarnLevel >=? LogLevel logger)%Z
  then Log os fuel logger msg WarnLevel extras w
  else Returned None (logger, w).

Definition Error (os : OS) (fuel : nat) (logger : Logger) (msg : string)
    (extras : list (gmap string string)) (w : World) : Outcome State (option error) :=
  if (ErrorLevel >=? LogLevel logger)%Z
  then Log os fuel logger msg ErrorLevel extras w
  else Returned None (logger, w).

Definition Fatal (os : OS) (fuel : nat) (logger : Logger) (msg : string)
    (extras : list (gmap string string)) (w : World) : Outcome State (option error) :=
  if (FatalLevel >=? LogLevel logger)%Z
  then Log os fuel logger msg FatalLevel extras w
  else Returned None (logger, w).

(** The six severities and their operations. *)
Inductive Severity : Type := trace | debug | info | warn | error_ | fatal.

Definition levelOf (s : Severity) : Z :=
  match s with
  | trace => TraceLevel
  | debug => DebugLevel
  | info => InfoLevel
  | warn => WarnLevel
  | error_ => ErrorLevel
  | fatal => FatalLevel
  end.

Definition leveled (s : Severity) :=
  match s with
  | trace => Trace
  | debug => Debug
  | info => Info
  | warn => Warning
  | error_ => Error
  | fatal => Fatal
  end.

(** The reserved fields of a record. *)
Definition reserved : list string :=
  ["hostname"; "level"; "msg"; "name"; "pid"; "time"; "v"].

(** The entry a call of [Log] serializes, and the line it writes. *)
Definition entryOf (os : OS) (logger : Logger) (msg : string) (level : Z)
    (extras : list (gmap string string)) (w : World) : gmap string any :=
  addExtras (newEntry logger msg level (time_Now os w)) extras.

Definition lineOf (os : OS) (logger : Logger) (msg : string) (level : Z)
    (extras : list (gmap string string)) (w : World) : string :=
  match Marshal (entryOf os logger msg level extras w) with
  | inl logJson => logJson +:+ chr newline
  | inr _ => ""
  end.

(** Where a call left the logger and the world, when it ended or blocked. *)
Definition stateOf {A} (o : Outcome State A) : option State :=
  match o with
  | Returned _ s | Panicked _ s | Blocked s => Some s
  | OutOfFuel => None
  end.


(** *** Sample systems and loggers *)

Definition clock0 : TimeText :=
  {| text := "2024-01-01 00:00:00.000000000 +0000 UTC"; text_long := eq_refl |}.

(** Every call succeeds. *)
Definition healthy : OS :=
  {| os_Hostname := "host1"; os_Getpid := 1234; time_Now := fun _ => clock0;
     respond := fun _ _ => None |}.

(** Writes fail on everything but the console. *)
Definition diskFull : OS :=
  {| os_Hostname := "host1"; os_Getpid := 1234; time_Now := fun _ => clock0;
     respond := fun _ c =>
       match c with
       | WriteString (FileWriter Stdout) _ => None
       | WriteString _ _ => Some "disk full"
       | _ => None
       end |}.

(** Only flushing fails. *)
Definition flushFails : OS :=
  {| os_Hostname := "host1"; os_Getpid := 1234; time_Now := fun _ => clock0;
     respond := fun _ c => match c with Flush _ => Some "short write" | _ => None end |}.

(** Only closing fails. *)
Definition closeFails : OS :=
  {| os_Hostname := "host1"; os_Getpid := 1234; time_Now := fun _ => clock0;
     respond := fun _ c =>
       match c with CloseFile _ => Some "file already closed" | _ => None end |}.

(** Extra fields. *)
Definition userAnn : gmap string string := {[ "user" := "ann" ]}.
Definition kFirst : gmap string string := {[ "k" := "first" ]}.
Definition kSecond : gmap string string := <["k" := "second"]> {[ "msg" := "n" ]}.
Definition zZero : gmap string string := {[ "z" := "0" ]}.


(** A logger as [NewLogger("svc", "app.log")] returns it. *)
Definition fileLogger : Logger :=
  newLogger healthy "svc" (FileWriter (Opened "app.log")) (Opened "app.log").

(** A logger as [NewBufferedLogger("svc", 16, "app.log")] returns it. *)
Definition bufferedLogger : Logger :=
  setBuffered true
    (newLogger healthy "svc" (BufioWriter (Opened "app.log") 16) (Opened "app.log")).

(** [sub] occurs in [s]. *)
Definition contains (s sub : string) : Prop := exists pre post, s = pre +:+ sub +:+ post.

(** A buffered logger with the threshold at fatal, after a write that
    failed, is closed. *)
Definition closeAfterFailedWrite : option (Outcome State (option error * option error)) :=
  match NewBufferedLogger diskFull "svc" 16 (Some ["app.log"]) [] with
  | Returned (inl logger) w =>
    match Fatal diskFull 2 (SetLogLevel logger "fatal") "x" [] w with
    | Returned (Some _) (logger, w) => Some (Close diskFull logger w)
    | _ => None
    end
  | _ => None
  end.

(** The record of the message hello at the info level, without extra
    fields. *)
Definition helloLine : string :=
  "{" +:+ quoted "hostname" +:+ ":" +:+ quoted "host1"
  +:+ "," +:+ quoted "level" +:+ ":30"
  +:+ "," +:+ quoted "msg" +:+ ":" +:+ quoted "hello"
  +:+ "," +:+ quoted "name" +:+ ":" +:+ quoted "svc"
  +:+ "," +:+ quoted "pid" +:+ ":1234"
  +:+ "," +:+ quoted "time" +:+ ":" +:+ quoted "2024-01-01T00:00:00.000Z"
  +:+ "," +:+ quoted "v" +:+ ":0}".

(** The line [Log] writes on the healthy system for the message started
    at the info level with the extra field user. *)
Definition startedLine : string :=
  "{" +:+ quoted "hostname" +:+ ":" +:+ quoted "host1"
  +:+ "," +:+ quoted "level" +:+ ":30"
  +:+ "," +:+ quoted "msg" +:+ ":" +:+ quoted "started"
  +:+ "," +:+ quoted "name" +:+ ":" +:+ quoted "svc"
  +:+ "," +:+ quoted "pid" +:+ ":1234"
  +:+ "," +:+ quoted "time" +:+ ":" +:+ quoted "2024-01-01T00:00:00.000Z"
  +:+ "," +:+ quoted "user" +:+ ":" +:+ quoted "ann"
  +:+ "," +:+ quoted "v" +:+ ":0}".

(** *** What a call leaves of a logger *)

(** The writer of the logger is the one it was constructed with: its file,
    or the buffered writer around its file when the logger is buffered. *)
Definition intact (l : Logger) : Prop :=
  match writer l with
  | FileWriter f => f = file l /\ isBuffered l = false
  | BufioWriter f _ => f = file l /\ isBuffered l = true
  end.

(** [l'] is [l] but for the mutex and the writer, and its writer is the
    writer of [l] or the console. *)
Definition sameButWriter (l l' : Logger) : Prop :=
  Name l' = Name l /\ Hostname l' = Hostname l /\ Pid l' = Pid l
  /\ LogLevel l' = LogLevel l /\ file l' = file l /\ isBuffered l' = isBuffered l
  /\ (writer l' = writer l \/ writer l' = FileWriter Stdout).

(** The calls of [Close] on an intact logger, the latest first. *)
Definition flushOf (l : Logger) : list Call :=
  if isBuffered l then [Flush (writer l)] else [].

Definition closeOf (l : Logger) : list Call :=
  if decide (file l = Stdout) then [] else [CloseFile (file l)].

(** A clock that shows a whole second: Go prints no fraction then. *)
Definition clockWhole : TimeText :=
  {| text := "2024-01-01 00:00:00 +0000 UTC"; text_long := eq_refl |}.

(** The threshold at fatal on a system whose disk is full. *)
Definition quietLogger : Logger := SetLogLevel fileLogger "fatal".

End logger.

(** ** The metrics package *)

Module metrics.
Import Json Go.

(** [prometheus.CounterOpts] and [prometheus.GaugeOpts]. *)
Record Opts : Type := {
  Name : string;
  Help : string;
  Namespace : string;
  Subsystem : string;
  ConstLabels : gmap string string
}.

(** [prometheus.HistogramOpts]. *)
Record HistogramOpts : Type := {
  opts : Opts;
  Buckets : list float
}.

(** The handles the package returns: what [prometheus.NewCounter] and its
    like build from the options. *)
Inductive Collector : Type :=
| Counter (o : Opts)
| Gauge (o : Opts)
| Histogram (o : HistogramOpts)
| CounterVec (o : Opts) (labelNames : list string)
| GaugeVec (o : Opts) (labelNames : list string)
| HistogramVec (o : HistogramOpts) (labelNames : list string).

(** The process-wide default registry: the collectors registered so far,
    the latest first. *)
Definition Registry : Type := list Collector.

(** The Prometheus client, as far as the package depends on it: whether
    [prometheus.NewHistogram] panics on the options (buckets that do not
    increase, a constant label named le), and whether the default registry
    refuses a collector. *)
Record Prometheus : Type := {
  newHistogramPanic : HistogramOpts -> option string;
  register : Registry -> Collector -> option error
}.

(** [prometheus.MustRegister]: it panics when the registry refuses. *)
Definition MustRegister (p : Prometheus) (c : Collector) (reg : Registry)
    : Outcome Registry unit :=
  match register p reg c with
  | Some err => Panicked err reg
  | None => Returned tt (c :: reg)
  end.

#[warnings="-inexact-float"]
Definition histogramBuckets : list float :=
  [0.001; 0.0025; 0.005; 0.0075; 0.01; 0.025; 0.05; 0.1; 0.25; 0.5; 1; 2.5; 5;
   10; 20; 30; 45; 60; 90]%float.

(** [useBuckets]: the first of the bucket lists given, the default ones
    when none is. *)
Definition useBuckets (buckets : list (list float)) : list float :=
  match buckets with
  | [] => histogramBuckets
  | b :: _ => b
  end.

Definition missing (kind : string) : error :=
  "Prometheus " +:+ kind
  +:+ " requires both name and help fields to initialize - missing one or both of those fields".

(** The result pair of a registration: the handle, [None] for nil, and
    the error. *)
Definition Result : Type := option Collector * option error.

Definition CreateHistogram (p : Prometheus) (name namespace subsystem help : string)
    (labels : gmap string string) (buckets : list (list float)) (reg : Registry)
    : Outcome Registry Result :=
  let useBuckets := useBuckets buckets in
  let constLabels := labels in
  if decide (name = "" \/ help = "") then Returned (None, Some (missing "histogram")) reg
  else
    let o := {| opts := {| Name := name; Help := help; Namespace := namespace;
                           Subsystem := subsystem; ConstLabels := constLabels |};
                Buckets := useBuckets |} in
    match newHistogramPanic p o with
    | Some reason => Panicked reason reg
    | None =>
      match MustRegister p (Histogram o) reg with
      | Returned _ reg => Returned (Some (Histogram o), None) reg
      | Panicked reason reg => Panicked reason reg
      | Blocked reg => Blocked reg
      | OutOfFuel => OutOfFuel
      end
    end.

Definition CreateHistogramVector (p : Prometheus) (name namespace subsystem help : string)
    (labels : gmap string string) (labelNames : list string)
    (buckets : list (list float)) (reg : Registry) : Outcome Registry Result :=
  let useBuckets := useBuckets buckets in
  let constLabels := labels in
  if decide (name = "" \/ help = "") then Returned (None, Some (missing "histogram")) reg
  else
    let histogramVec :=
      HistogramVec
        {| opts := {| Name := name; Help := help; Namespace := namespace;
                      Subsystem := subsystem; ConstLabels := constLabels |};
           Buckets := useBuckets |} labelNames in
    match MustRegister p histogramVec reg with
    | Returned _ reg => Returned (Some histogramVec, None) reg
    | Panicked reason reg => Panicked reason reg
    | Blocked reg => Blocked reg
    | OutOfFuel => OutOfFuel
    end.

Definition CreateCounterVector (p : Prometheus) (name namespace subsystem help : string)
    (labels : gmap string string) (labelNames : list string) (reg : Registry)
    : Outcome Registry Result :=
  let constLabels := labels in
  if decide (name = "" \/ help = "")
  then Returned (None, Some (missing "counter vector")) reg
  else
    let counterVec :=
      CounterVec {| Name := name; Help := help; Namespace := namespace;
                    Subsystem := subsystem; ConstLabels := constLabels |} labelNames in
    match MustRegister p counterVec reg with
    | Returned _ reg => Returned (Some counterVec, None) reg
    | Panicked reason reg => Panicked reason reg
    | Blocked reg => Blocked reg
    | OutOfFuel => OutOfFuel
    end.

Definition CreateCounter (p : Prometheus) (name namespace subsystem help : string)
    (labels : gmap string string) (reg : Registry) : Outcome Registry Result :=
  let constLabels := labels in
  if decide (name = "" \/ help = "") then Returned (None, Some (missing "counter")) reg
  else
    let counter :=
      Counter {| Name := name; Help := help; Namespace := namespace;
                 Subsystem := subsystem; ConstLabels := constLabels |} in
    match MustRegister p counter reg with
    | Returned _ reg => Returned (Some counter, None) reg
    | Panicked reason reg => Panicked reason reg
    | Blocked reg => Blocked reg
    | OutOfFuel => OutOfFuel
    end.

Definition CreateGauge (p : Prometheus) (name namespace subsystem help : string)
    (labels : gmap string string) (reg : Registry) : Outcome Registry Result :=
  let constLabels := labels in
  if decide (name = "" \/ help = "") then Returned (None, Some (missing "gauge")) reg
  else
    let gauge :=
      Gauge {| Name := name; Help := help; Namespace := namespace;
               Subsystem := subsystem; ConstLabels := constLabels |} in
    match MustRegister p gauge reg with
    | Returned _ reg => Returned (Some gauge, None) reg
    | Panicked reason reg => Panicked reason reg
    | Blocked reg => Blocked reg
    | OutOfFuel => OutOfFuel
    end.

Definition CreateGaugeVector (p : Prometheus) (name namespace subsystem help : string)
    (labels : gmap string string) (labelNames : list string) (reg : Registry)
    : Outcome Registry Result :=
  let constLabels := labels in
  if decide (name = "" \/ help = "")
  then Returned (None, Some (missing "gauge vector")) reg
  else
    let gaugeVec :=
      GaugeVec {| Name := name; Help := help; Namespace := namespace;
                  Subsystem := subsystem; ConstLabels := constLabels |} labelNames in
    match MustRegister p gaugeVec reg with
    | Returned _ reg => Returned (Some gaugeVec, None) reg
    | Panicked reason reg => Panicked reason reg
    | Blocked reg => Blocked reg
    | OutOfFuel => OutOfFuel
    end.

(** *** A sample client

    [prometheus.BuildFQName], and a registry that refuses a collector whose
    descriptor (the full name and the values of the constant labels in the
    order of their names) is registered already. *)
Definition BuildFQName (namespace subsystem name : string) : string :=
  if decide (name = "") then ""
  else if decide (namespace <> "" /\ subsystem <> "")
  then namespace +:+ "_" +:+ subsystem +:+ "_" +:+ name
  else if decide (namespace <> "") then namespace +:+ "_" +:+ name
  else if decide (subsystem <> "") then subsystem +:+ "_" +:+ name
  else name.

Definition optsOf (c : Collector) : Opts :=
  match c with
  | Counter o | Gauge o | CounterVec o _ | GaugeVec o _ => o
  | Histogram o | HistogramVec o _ => opts o
  end.

Definition descId (c : Collector) : string * list string :=
  (BuildFQName (Namespace (optsOf c)) (Subsystem (optsOf c)) (Name (optsOf c)),
   (sortedPairs (ConstLabels (optsOf c))).*2).

Definition strict : Prometheus :=
  {| newHistogramPanic := fun _ => None;
     register := fun reg c =>
       if decide (descId c ∈ descId <$> reg)
       then Some "duplicate metrics collector registration attempted"
       else None |}.

(** *** Counter vectors at run time

    A [prometheus.CounterVec] holds one counter for each list of label
    values asked for so far.  [GetMetricWithLabelValues] refuses a list
    whose length is not the number of label names of the vector, and a
    label value the client does not accept ([accepts]: every string for
    the early versions of the client, UTF-8 only for the later ones);
    otherwise it returns the counter of the list, made at 0 when it is
    new.  [Add] on a counter panics on a negative value.  The vector is one
    that [NewCounterVec] made, not a nil pointer. *)
Record Vec : Type := {
  variableLabels : list string;
  children : gmap (list string) float
}.

Definition GetMetricWithLabelValues (accepts : string -> bool) (v : Vec) (lvs : list string)
    : (list string * Vec) + error :=
  if negb (length lvs =? length (variableLabels v))%nat
  then inr "inconsistent label cardinality"
  else if negb (forallb accepts lvs) then inr "label value is not valid UTF-8"
  else
    inl (lvs,
         match children v !! lvs with
         | Some _ => v
         | None =>
           {| variableLabels := variableLabels v;
              children := <[lvs := 0%float]> (children v) |}
         end).

Definition Add (counter : list string) (x : float) (v : Vec) : Outcome Vec unit :=
  if (x <? 0)%float then Panicked "counter cannot decrease in value" v
  else
    Returned tt
      {| variableLabels := variableLabels v;
         children := alter (fun y => (y + x)%float) counter (children v) |}.

(** [InitCounterVector]: [for _, label := range labels]. *)
Fixpoint InitCounterVector (accepts : string -> bool) (counterVec : Vec)
    (labels : list string) : Outcome Vec unit :=
  match labels with
  | [] => Returned tt counterVec
  | label :: labels =>
    match GetMetricWithLabelValues accepts counterVec [label] with
    | inl (counter, counterVec) =>
      match Add counter 0 counterVec with
      | Returned _ counterVec => InitCounterVector accepts counterVec labels
      | Panicked reason counterVec => Panicked reason counterVec
      | Blocked counterVec => Blocked counterVec
      | OutOfFuel => OutOfFuel
      end
    | inr _ => InitCounterVector accepts counterVec labels
    end
  end.

(** A counter that is absent or at 0. *)
Definition atZero (v : Vec) (key : list string) : Prop :=
  children v !! key = None \/ children v !! key = Some 0%float.

(** A vector with the one label name code, and one child. *)
Definition byCode : Vec :=
  {| variableLabels := ["code"]; children := {[ ["200"] := 3%float ]} |}.

(** *** The metrics server

    [http.Handle] panics when the pattern is registered already in the
    default mux (the text of the panic is that of the early versions of
    Go).  [http.ListenAndServe] keeps serving, in which case the call does
    not return, or stops with what it returns (an error, by its
    documentation). *)
Inductive Served : Type :=
| Serving
| Stopped (err : option error).

Definition Mux : Type := list string.

Definition Handle (pattern : string) (mux : Mux) : Outcome Mux unit :=
  if decide (pattern ∈ mux)
  then Panicked ("http: multiple registrations for " +:+ pattern) mux
  else Returned tt (pattern :: mux).

(** [StartPrometheusMetricsServer]; [Blocked] is a call that does not
    return: the server is serving, or the logger waits for its mutex. *)
Definition StartPrometheusMetricsServer (os : logger.OS) (ListenAndServe : string -> Served)
    (fuel : nat) (name : string) (lg : logger.Logger) (port : Z)
    (mux : Mux) (w : logger.World) : Outcome (Mux * logger.State) (option error) :=
  match Handle "/metrics" mux with
  | Returned _ mux =>
    match ListenAndServe (":" +:+ formatInt port) with
    | Serving => Blocked (mux, (lg, w))
    | Stopped (Some err) =>
      match logger.Error os fuel lg ("Error starting Prometheus metrics server: " +:+ err)
              [] w with
      | Returned _ st => Returned (Some err) (mux, st)
      | Panicked reason st => Panicked reason (mux, st)
      | Blocked st => Blocked (mux, st)
      | OutOfFuel => OutOfFuel
      end
    | Stopped None => Returned None (mux, (lg, w))
    end
  | Panicked reason mux => Panicked reason (mux, (lg, w))
  | Blocked mux => Blocked (mux, (lg, w))
  | OutOfFuel => OutOfFuel
  end.

(** A port that is taken. *)
Definition portTaken (addr : string) : Served :=
  Stopped (Some ("listen tcp " +:+ addr +:+ ": bind: address already in use")).

End metrics.

(** ** The testhttp package *)

Module testhttp.
Import Go.

(** A [[]byte] is a window on an array of the heap: the bytes it shows are
    those the array holds when it is read.  A nil slice shows no byte, like
    a window of length 0. *)
Record Slice : Type := {
  array : nat;
  offset : nat;
  len : nat
}.

Definition Heap : Type := gmap nat string.

Definition bytesOf (h : Heap) (b : Slice) : string :=
  substring (offset b) (len b) (default "" (h !! array b)).

Record TestHTTPResponse : Type := {
  Status : Z;
  Body : Slice
}.

(** [Responses] is [None] for the nil map of a [MockHTTP] that
    [InitMockHTTP] did not make.  The server and the client are handles
    into [net/http]; the model keeps the handler of the server. *)
Record MockHTTP : Type := {
  Responses : option (gmap string TestHTTPResponse)
}.

(** The calls of a handler on its [http.ResponseWriter], the first one
    first. *)
Inductive Reply : Type :=
| WriteHeader (code : Z)
| HeaderSet (key value : string)
| WriteBody (data : string).

Definition StatusNotFound : Z := 404.

(** [mock.Responses[key]]: reading a nil map finds nothing. *)
Definition find (mock : MockHTTP) (key : string) : option TestHTTPResponse :=
  match Responses mock with
  | Some m => m !! key
  | None => None
  end.

(** The handler [InitMockHTTP] gives the server; [rUrl] is
    [r.URL.String()] and [h] the heap at the time of the request.  Requests
    are served between the calls that change the test data, not during
    them: the map has no lock. *)
Definition handler (h : Heap) (mock : MockHTTP) (rUrl : string) : list Reply :=
  match find mock rUrl with
  | Some response =>
    [WriteHeader (Status response);
     HeaderSet "Content-Type" "application/json";
     WriteBody (bytesOf h (Body response))]
  | None =>
    [WriteHeader StatusNotFound;
     HeaderSet "Content-Type" "application/json";
     WriteBody ""]
  end.

Definition InitMockHTTP : MockHTTP := {| Responses := Some ∅ |}.

(** Assigning to an entry of a nil map panics. *)
Definition AddTestData (mock : MockHTTP) (testUrl : string) (code : Z) (body : Slice)
    : Outcome MockHTTP unit :=
  let resp := {| Status := code; Body := body |} in
  match Responses mock with
  | Some m => Returned tt {| Responses := Some (<[testUrl := resp]> m) |}
  | None => Panicked "assignment to entry in nil map" mock
  end.

(** [delete] on a nil map does nothing. *)
Definition DeleteTestData (mock : MockHTTP) (testUrl : string) : MockHTTP :=
  {| Responses := delete testUrl <$> Responses mock |}.

(** The reply to a URL without test data. *)
Definition notFound : list Reply :=
  [WriteHeader StatusNotFound; HeaderSet "Content-Type" "application/json"; WriteBody ""].

(** A body of five bytes in array 0. *)
Definition okBody : Slice := {| array := 0; offset := 0; len := 5 |}.

Definition okMock : MockHTTP :=
  {| Responses := Some {[ "http://api/ok" := {| Status := 200; Body := okBody |} ]} |}.

End testhttp.

(** * Part II: properties *)

(** ** Strings *)

Module BytesFacts.
Import Bytes.

Lemma str_app_cons (c : ascii) (s t : string) : String c s +:+ t = String c (s +:+ t).
Proof. reflexivity. Qed.

Lemma str_app_nil_l (t : string) : "" +:+ t = t.
Proof. reflexivity. Qed.

Lemma str_app_nil_r (s : string) : s +:+ "" = s.
Proof. induction s as [|c s IH]; [reflexivity|]. rewrite str_app_cons. congruence. Qed.

Lemma str_app_assoc (s t u : string) : (s +:+ t) +:+ u = s +:+ (t +:+ u).
Proof.
  induction s as [|c s IH]; [reflexivity|].
  rewrite !str_app_cons. congruence.
Qed.

Lemma str_length_app (s t : string) :
  String.length (s +:+ t) = (String.length s + String.length t)%nat.
Proof.
  induction s as [|c s IH]; [reflexivity|].
  rewrite str_app_cons. simpl. congruence.
Qed.

Lemma occurs_app (c : ascii) (s t : string) :
  occurs c (s +:+ t) = occurs c s || occurs c t.
Proof.
  induction s as [|a s IH]; [reflexivity|].
  rewrite str_app_cons. simpl. rewrite IH. apply orb_assoc.
Qed.

(** Strong induction on the length of a string. *)
Lemma str_length_ind (P : string -> Prop) :
  (forall s, (forall t, (String.length t < String.length s)%nat -> P t) -> P s) ->
  forall s, P s.
Proof.
  intros step s.
  assert (H : forall n t, (String.length t < n)%nat -> P t).
  { induction n as [|n IH]; intros t Ht; [lia|].
    apply step. intros u Hu. apply IH. lia. }
  apply (H (S (String.length s))). lia.
Qed.

End BytesFacts.

(** ** Replacing and splitting *)

Module GoStringsFacts.
Import Bytes BytesFacts GoStrings.

Lemma code_inj (a c : ascii) : code a = code c -> a = c.
Proof.
  unfold code. intros H.
  rewrite <- (ascii_N_embedding a), <- (ascii_N_embedding c). congruence.
Qed.

Lemma prefix_chr (c a : ascii) (r : string) :
  String.prefix (chr c) (String a r) = (code a =? code c)%N.
Proof.
  unfold chr. cbn [String.prefix]. destruct (ascii_dec c a) as [->|Hne].
  - rewrite N.eqb_refl. by destruct r.
  - symmetry. apply N.eqb_neq. intros H. apply Hne. symmetry. by apply code_inj.
Qed.

Lemma substring_app (a b : string) (n : nat) :
  substring 0 (String.length a + n) (a +:+ b) = a +:+ substring 0 n b.
Proof.
  induction a as [|c a IH]; [reflexivity|].
  rewrite !str_app_cons. cbn [String.length Nat.add substring]. by rewrite IH.
Qed.

Lemma substring_length (n : nat) (s : string) :
  (n <= String.length s)%nat -> String.length (substring 0 n s) = n.
Proof.
  revert s. induction n as [|n IH]; intros [|c s] H; simpl in *; try lia;
    try reflexivity.
  rewrite IH; lia.
Qed.

(** Replacing the first occurrence of one byte by another. *)
Lemma replaceFrom_first (c d : ascii) (pre post : string) (fuel : nat) :
  occurs c pre = false -> (String.length pre < fuel)%nat ->
  replaceFrom fuel (pre +:+ String c post) (chr c) (chr d) 1 = pre +:+ String d post.
Proof.
  revert fuel. induction pre as [|a pre IH]; intros fuel Hocc Hfuel.
  - destruct fuel as [|fuel]; [simpl in Hfuel; lia|].
    rewrite str_app_nil_l. cbn [replaceFrom Z.eqb].
    rewrite prefix_chr, N.eqb_refl. cbn [chr String.length drop].
    change (1 - 1) with 0. change (chr d +:+ ?x) with (String d x). rewrite str_app_nil_l.
    by destruct fuel.
  - destruct fuel as [|fuel]; [simpl in Hfuel; lia|].
    simpl in Hocc. apply orb_false_iff in Hocc as [Ha Hocc].
    rewrite str_app_cons. cbn [replaceFrom Z.eqb].
    rewrite prefix_chr, Ha. rewrite IH; [reflexivity|done|simpl in Hfuel; lia].
Qed.

Lemma Replace_first (c d : ascii) (pre post : string) :
  occurs c pre = false ->
  Replace (pre +:+ String c post) (chr c) (chr d) 1 = pre +:+ String d post.
Proof.
  intros H. unfold Replace, chr. apply (replaceFrom_first c d); [done|].
  rewrite str_length_app. lia.
Qed.

(** Replacing every occurrence of one byte by another leaves none. *)
Lemma replaceFrom_all (c d : ascii) (s : string) (fuel : nat) (n : Z) :
  c <> d -> n < 0 -> (String.length s <= fuel)%nat ->
  occurs c (replaceFrom fuel s (chr c) (chr d) n) = false.
Proof.
  intros Hne. revert s n. induction fuel as [|fuel IH]; intros s n Hn Hfuel.
  - destruct s; [reflexivity|simpl in Hfuel; lia].
  - cbn [replaceFrom]. destruct (Z.eqb_spec n 0) as [->|_]; [lia|].
    destruct s as [|a r]; [reflexivity|].
    rewrite prefix_chr. simpl in Hfuel.
    destruct (N.eqb_spec (code a) (code c)) as [Heq|Hneq].
    + cbn [chr String.length drop]. change (chr d +:+ ?x) with (String d x).
      cbn [occurs]. rewrite IH by lia. rewrite orb_false_r.
      apply N.eqb_neq. intros H. apply Hne. symmetry. by apply code_inj.
    + cbn [occurs]. rewrite IH by lia. rewrite orb_false_r. by apply N.eqb_neq.
Qed.

(** It replaces nothing else. *)
Lemma replaceFrom_none (c d : ascii) (s : string) (fuel : nat) (n : Z) :
  occurs c s = false -> replaceFrom fuel s (chr c) (chr d) n = s.
Proof.
  revert s n. induction fuel as [|fuel IH]; intros s n Hocc; [reflexivity|].
  cbn [replaceFrom]. destruct (n =? 0)%Z; [reflexivity|].
  destruct s as [|a r]; [reflexivity|].
  simpl in Hocc. apply orb_false_iff in Hocc as [Ha Hocc].
  rewrite prefix_chr, Ha. by rewrite IH.
Qed.

Lemma LastIndexByte_occurs (s : string) (c : ascii) :
  (0 <=? LastIndexByte s c)%Z = occurs c s.
Proof.
  induction s as [|a r IH]; [reflexivity|].
  cbn [LastIndexByte occurs]. rewrite <- IH.
  destruct (Z.leb_spec 0 (LastIndexByte r c)) as [H|H].
  - rewrite orb_true_r. apply Z.leb_le. lia.
  - rewrite orb_false_r. by destruct (code a =? code c)%N.
Qed.

(** The last occurrence of a byte splits the string: what follows it is
    free of the byte. *)
Lemma LastIndexByte_split (s : string) (c : ascii) :
  occurs c s = true ->
  let i := Z.to_nat (LastIndexByte s c) in
  s = substring 0 i s +:+ String c (drop (S i) s)
  /\ occurs c (drop (S i) s) = false.
Proof.
  induction s as [|a r IH]; [discriminate|]. intros Hocc.
  cbn [LastIndexByte]. pose proof (LastIndexByte_occurs r c) as Hr.
  destruct (Z.leb_spec 0 (LastIndexByte r c)) as [H|H].
  - destruct (IH (eq_sym Hr)) as [Hs Hd].
    replace (Z.to_nat (LastIndexByte r c + 1)) with (S (Z.to_nat (LastIndexByte r c))) by lia.
    cbv zeta. cbn [substring drop]. rewrite str_app_cons. split; [|exact Hd].
    f_equal. exact Hs.
  - simpl in Hocc. rewrite <- Hr, orb_false_r in Hocc.
    rewrite Hocc. cbv zeta. cbn [Z.to_nat substring drop]. rewrite str_app_nil_l.
    change (Z.to_nat 0) with 0%nat. cbn [drop].
    apply N.eqb_eq, code_inj in Hocc as ->. split; [reflexivity|]. by symmetry.
Qed.

End GoStringsFacts.

(** ** Runes *)

Module Utf8Facts.
Import Bytes BytesFacts Utf8.

(** The loop, one rune at a time. *)
Lemma forRunes_unfold onByte onRune onError (s : string) :
  forRunes onByte onRune onError s =
  match DecodeRuneInString s with
  | None => ""
  | Some (Byte c, r) => onByte c +:+ forRunes onByte onRune onError r
  | Some (Seq q, r) => onRune q +:+ forRunes onByte onRune onError r
  | Some (RuneError, r) => onError +:+ forRunes onByte onRune onError r
  end.
Proof.
  destruct s as [|c r]; [reflexivity|]. simpl.
  destruct (isASCII c); [reflexivity|].
  destruct r as [|c1 r1]; [reflexivity|].
  destruct (seq2 c c1); [reflexivity|].
  destruct r1 as [|c2 r2]; [reflexivity|].
  destruct (seq3 c c1 c2); [reflexivity|].
  destruct r2 as [|c3 r3]; [reflexivity|].
  destruct (seq4 c c1 c2 c3); reflexivity.
Qed.

(** Decoding consumes at least one byte. *)
Lemma DecodeRuneInString_shorter (s : string) (x : Rune) (r : string) :
  DecodeRuneInString s = Some (x, r) -> (String.length r < String.length s)%nat.
Proof.
  destruct s as [|c s]; [discriminate|]. simpl.
  destruct (isASCII c); [intros [= <- <-]; simpl; lia|].
  destruct s as [|c1 r1]; [intros [= <- <-]; simpl; lia|].
  destruct (seq2 c c1); [intros [= <- <-]; simpl; lia|].
  destruct r1 as [|c2 r2]; [intros [= <- <-]; simpl; lia|].
  destruct (seq3 c c1 c2); [intros [= <- <-]; simpl; lia|].
  destruct r2 as [|c3 r3]; [intros [= <- <-]; simpl; lia|].
  destruct (seq4 c c1 c2 c3); intros [= <- <-]; simpl; lia.
Qed.

Lemma within_high (lo hi : N) (c : ascii) :
  (128 <= lo)%N -> within lo hi c = true -> isASCII c = false.
Proof.
  unfold within, isASCII, RuneSelf. intros Hlo H.
  apply andb_true_iff in H as [H _]. apply N.leb_le in H.
  apply N.ltb_ge. lia.
Qed.

Lemma cont_high (c : ascii) : cont c = true -> isASCII c = false.
Proof. apply within_high. lia. Qed.

Lemma second3_high (c c1 : ascii) : second3 c c1 = true -> isASCII c1 = false.
Proof.
  unfold second3.
  destruct (code c =? 224)%N; [apply within_high; lia|].
  destruct (code c =? 237)%N; [apply within_high; lia|apply cont_high].
Qed.

Lemma second4_high (c c1 : ascii) : second4 c c1 = true -> isASCII c1 = false.
Proof.
  unfold second4.
  destruct (code c =? 240)%N; [apply within_high; lia|].
  destruct (code c =? 244)%N; [apply within_high; lia|apply cont_high].
Qed.

(** A multi-byte rune has two to four bytes, none below RuneSelf. *)
Lemma DecodeRuneInString_Seq (s q r : string) :
  DecodeRuneInString s = Some (Seq q, r) ->
  allHigh q = true /\ s = q +:+ r /\ (2 <= String.length q <= 4)%nat.
Proof.
  destruct s as [|c s]; [discriminate|]. simpl.
  destruct (isASCII c) eqn:Hc; [discriminate|].
  destruct s as [|c1 r1]; [discriminate|].
  destruct (seq2 c c1) eqn:H2.
  { intros [= <- <-]. unfold seq2 in H2. apply andb_true_iff in H2 as [_ H1].
    simpl. rewrite Hc, (cont_high _ H1). repeat split; simpl; lia. }
  destruct r1 as [|c2 r2]; [discriminate|].
  destruct (seq3 c c1 c2) eqn:H3.
  { intros [= <- <-]. unfold seq3 in H3.
    apply andb_true_iff in H3 as [H3 Hc2]. apply andb_true_iff in H3 as [_ Hc1].
    simpl. rewrite Hc, (second3_high _ _ Hc1), (cont_high _ Hc2).
    repeat split; simpl; lia. }
  destruct r2 as [|c3 r3]; [discriminate|].
  destruct (seq4 c c1 c2 c3) eqn:H4; [|discriminate].
  intros [= <- <-]. unfold seq4 in H4.
  apply andb_true_iff in H4 as [H4 Hc3]. apply andb_true_iff in H4 as [H4 Hc2].
  apply andb_true_iff in H4 as [_ Hc1].
  simpl. rewrite Hc, (second4_high _ _ Hc1), (cont_high _ Hc2), (cont_high _ Hc3).
  repeat split; simpl; lia.
Qed.

Lemma DecodeRuneInString_Byte (s r : string) (c : ascii) :
  DecodeRuneInString s = Some (Byte c, r) -> isASCII c = true /\ s = String c r.
Proof.
  destruct s as [|c0 s]; [discriminate|]. simpl.
  destruct (isASCII c0) eqn:Hc; [intros [= <- <-]; auto|].
  destruct s as [|c1 r1]; [discriminate|].
  destruct (seq2 c0 c1); [discriminate|].
  destruct r1 as [|c2 r2]; [discriminate|].
  destruct (seq3 c0 c1 c2); [discriminate|].
  destruct r2 as [|c3 r3]; [discriminate|].
  destruct (seq4 c0 c1 c2 c3); discriminate.
Qed.

Lemma DecodeRuneInString_RuneError (s r : string) :
  DecodeRuneInString s = Some (RuneError, r) -> exists c, s = String c r.
Proof.
  destruct s as [|c s]; [discriminate|]. simpl.
  destruct (isASCII c); [discriminate|].
  destruct s as [|c1 r1]; [intros [= <-]; eauto|].
  destruct (seq2 c c1); [discriminate|].
  destruct r1 as [|c2 r2]; [intros [= <-]; eauto|].
  destruct (seq3 c c1 c2); [discriminate|].
  destruct r2 as [|c3 r3]; [intros [= <-]; eauto|].
  destruct (seq4 c c1 c2 c3); [discriminate|intros [= <-]; eauto].
Qed.

Lemma DecodeRuneInString_None (s : string) : DecodeRuneInString s = None -> s = "".
Proof.
  destruct s as [|c s]; [done|]. simpl.
  destruct (isASCII c); [discriminate|].
  destruct s as [|c1 r1]; [discriminate|].
  destruct (seq2 c c1); [discriminate|].
  destruct r1 as [|c2 r2]; [discriminate|].
  destruct (seq3 c c1 c2); [discriminate|].
  destruct r2 as [|c3 r3]; [discriminate|].
  destruct (seq4 c c1 c2 c3); discriminate.
Qed.

(** A rune read from the head of a string is read from the head of any
    longer string. *)
Lemma DecodeRuneInString_app (s r b : string) (x : Rune) :
  DecodeRuneInString s = Some (x, r) -> x <> RuneError ->
  DecodeRuneInString (s +:+ b) = Some (x, r +:+ b).
Proof.
  destruct s as [|c s]; [discriminate|]. rewrite str_app_cons. simpl.
  destruct (isASCII c); [by intros [= <- <-]|].
  destruct s as [|c1 r1]; [by intros [= <- <-]|]. rewrite str_app_cons.
  destruct (seq2 c c1); [by intros [= <- <-]|].
  destruct r1 as [|c2 r2]; [by intros [= <- <-]|]. rewrite str_app_cons.
  destruct (seq3 c c1 c2); [by intros [= <- <-]|].
  destruct r2 as [|c3 r3]; [by intros [= <- <-]|]. rewrite str_app_cons.
  destruct (seq4 c c1 c2 c3); by intros [= <- <-].
Qed.

(** The bytes of a multi-byte rune are that rune and nothing else. *)
Lemma DecodeRuneInString_Seq_self (s q r : string) :
  DecodeRuneInString s = Some (Seq q, r) -> DecodeRuneInString q = Some (Seq q, "").
Proof.
  destruct s as [|c s]; [discriminate|]. simpl.
  destruct (isASCII c) eqn:Hc; [discriminate|].
  destruct s as [|c1 r1]; [discriminate|].
  destruct (seq2 c c1) eqn:H2.
  { intros [= <- <-]. simpl. by rewrite Hc, H2. }
  destruct r1 as [|c2 r2]; [discriminate|].
  destruct (seq3 c c1 c2) eqn:H3.
  { intros [= <- <-]. simpl. by rewrite Hc, H2, H3. }
  destruct r2 as [|c3 r3]; [discriminate|].
  destruct (seq4 c c1 c2 c3) eqn:H4; [|discriminate].
  intros [= <- <-]. simpl. by rewrite Hc, H2, H3, H4.
Qed.

Lemma coerce_unfold (s : string) :
  coerce s =
  match DecodeRuneInString s with
  | None => ""
  | Some (Byte c, r) => String c (coerce r)
  | Some (Seq q, r) => q +:+ coerce r
  | Some (RuneError, r) => replacement +:+ coerce r
  end.
Proof. unfold coerce. by rewrite forRunes_unfold. Qed.

(** Replacing never shortens. *)
Lemma length_coerce (s : string) : (String.length s <= String.length (coerce s))%nat.
Proof.
  induction s as [s IH] using str_length_ind. rewrite coerce_unfold.
  destruct (DecodeRuneInString s) as [[[c|q|] r]|] eqn:Hd.
  - destruct (DecodeRuneInString_Byte _ _ _ Hd) as [_ ->].
    specialize (IH r ltac:(simpl; lia)). simpl. lia.
  - pose proof (DecodeRuneInString_shorter _ _ _ Hd) as Hlt.
    destruct (DecodeRuneInString_Seq _ _ _ Hd) as (_ & -> & _).
    specialize (IH r Hlt). rewrite !str_length_app. lia.
  - destruct (DecodeRuneInString_RuneError _ _ Hd) as [c ->].
    specialize (IH r ltac:(simpl; lia)). rewrite str_length_app. simpl. lia.
  - by rewrite (DecodeRuneInString_None _ Hd).
Qed.

(** Well-formed UTF-8 followed by any string. *)
Lemma coerce_app (a b : string) : coerce a = a -> coerce (a +:+ b) = a +:+ coerce b.
Proof.
  induction a as [a IH] using str_length_ind. intros Ha.
  rewrite coerce_unfold in Ha.
  destruct (DecodeRuneInString a) as [[[c|q|] r]|] eqn:Hd.
  - pose proof (DecodeRuneInString_shorter _ _ _ Hd) as Hlt.
    destruct (DecodeRuneInString_Byte _ _ _ Hd) as [_ ->].
    injection Ha as Hr.
    rewrite (coerce_unfold (String c r +:+ b)), (DecodeRuneInString_app _ _ b _ Hd) by done.
    rewrite (IH r Hlt Hr). reflexivity.
  - pose proof (DecodeRuneInString_shorter _ _ _ Hd) as Hlt.
    destruct (DecodeRuneInString_Seq _ _ _ Hd) as (_ & Ea & _).
    rewrite Ea in Ha. apply String.app_inj in Ha.
    rewrite (coerce_unfold (a +:+ b)), (DecodeRuneInString_app _ _ b _ Hd) by done.
    rewrite (IH r Hlt Ha), Ea, str_app_assoc. reflexivity.
  - destruct (DecodeRuneInString_RuneError _ _ Hd) as [c ->].
    pose proof (length_coerce r) as Hlen.
    apply (f_equal String.length) in Ha. rewrite str_length_app in Ha. simpl in Ha. lia.
  - by rewrite (DecodeRuneInString_None _ Hd).
Qed.

Lemma coerce_valid_app (a b : string) :
  coerce a = a -> coerce b = b -> coerce (a +:+ b) = a +:+ b.
Proof. intros Ha Hb. by rewrite coerce_app, Hb. Qed.

Lemma coerce_allASCII (s : string) : allASCII s = true -> coerce s = s.
Proof.
  induction s as [|c s IH]; [reflexivity|]. simpl. intros H.
  apply andb_true_iff in H as [Hc Hs].
  rewrite coerce_unfold. simpl. rewrite Hc. by rewrite IH.
Qed.

Lemma coerce_Seq (s q r : string) :
  DecodeRuneInString s = Some (Seq q, r) -> coerce q = q.
Proof.
  intros Hd. rewrite coerce_unfold, (DecodeRuneInString_Seq_self _ _ _ Hd).
  apply str_app_nil_r.
Qed.

(** What [coerce] returns is well-formed. *)
Lemma coerce_idemp (s : string) : coerce (coerce s) = coerce s.
Proof.
  induction s as [s IH] using str_length_ind. rewrite (coerce_unfold s).
  destruct (DecodeRuneInString s) as [[[c|q|] r]|] eqn:Hd; [| | |reflexivity];
    pose proof (DecodeRuneInString_shorter _ _ _ Hd) as Hlt.
  - destruct (DecodeRuneInString_Byte _ _ _ Hd) as [Hc _].
    rewrite (coerce_unfold (String c _)). simpl. rewrite Hc. by rewrite IH.
  - by rewrite (coerce_app _ _ (coerce_Seq _ _ _ Hd)), IH.
  - by rewrite (coerce_app replacement _ eq_refl), IH.
Qed.

End Utf8Facts.

(** ** The encoder and the decoder *)

Module JsonFacts.
Import Bytes BytesFacts Utf8 Utf8Facts Json.

(** *** The decoder reads back what the encoder writes *)

Lemma push_push {A} (a b : string) (r : option (string * A)) :
  push a (push b r) = push (a +:+ b) r.
Proof. destruct r as [[t rest]|]; [|reflexivity]. simpl. by rewrite str_app_assoc. Qed.

Lemma unquote_escapeByte (c : ascii) (X : string) :
  isASCII c = true -> unquote (escapeByte c +:+ X) = push (chr c) (unquote X).
Proof.
  destruct c as [[] [] [] [] [] [] [] []]; intros H;
    first [discriminate H | reflexivity].
Qed.

Lemma unquote_high (c : ascii) (X : string) :
  isASCII c = false -> unquote (String c X) = push (chr c) (unquote X).
Proof.
  destruct c as [[] [] [] [] [] [] [] []]; intros H;
    first [discriminate H | reflexivity].
Qed.

Lemma unquote_allHigh (q X : string) :
  allHigh q = true -> unquote (q +:+ X) = push q (unquote X).
Proof.
  induction q as [|c q IH]; intros H.
  - rewrite str_app_nil_l. by destruct (unquote X) as [[]|].
  - simpl in H. apply andb_true_iff in H as [Hc Hq]. apply negb_true_iff in Hc.
    rewrite str_app_cons, (unquote_high _ _ Hc), (IH Hq), push_push.
    reflexivity.
Qed.

Lemma unquote_escapeRune (q X : string) :
  allHigh q = true -> unquote (escapeRune q +:+ X) = push q (unquote X).
Proof.
  intros H. unfold escapeRune.
  destruct (decide (q = lineSep)) as [->|_]; [reflexivity|].
  destruct (decide (q = paraSep)) as [->|_]; [reflexivity|].
  by apply unquote_allHigh.
Qed.

Lemma unquote_escapeError (X : string) :
  unquote (escapeError +:+ X) = push replacement (unquote X).
Proof. reflexivity. Qed.

(** The body of a literal, up to its closing quote, reads back as the text
    of the string it was written from. *)
Lemma unquote_quoteBody (s X : string) :
  unquote (quoteBody s +:+ String dquote X) = Some (coerce s, X).
Proof.
  induction s as [s IH] using str_length_ind.
  unfold quoteBody, coerce. rewrite !forRunes_unfold.
  destruct (DecodeRuneInString s) as [[[c|q|] r]|] eqn:Hd.
  - destruct (DecodeRuneInString_Byte _ _ _ Hd) as [Hc _].
    rewrite str_app_assoc, (unquote_escapeByte _ _ Hc).
    fold (quoteBody r). rewrite IH by eauto using DecodeRuneInString_shorter.
    reflexivity.
  - destruct (DecodeRuneInString_Seq _ _ _ Hd) as (Hq & _ & _).
    rewrite str_app_assoc, (unquote_escapeRune _ _ Hq).
    fold (quoteBody r). rewrite IH by eauto using DecodeRuneInString_shorter.
    reflexivity.
  - rewrite str_app_assoc, unquote_escapeError.
    fold (quoteBody r). rewrite IH by eauto using DecodeRuneInString_shorter.
    reflexivity.
  - reflexivity.
Qed.

Lemma spanDigits_app (d X : string) :
  allDigits d = true -> stopsNumber X = true -> spanDigits (d +:+ X) = (d, X).
Proof.
  intros Hd HX. induction d as [|c d IH].
  - rewrite str_app_nil_l. destruct X as [|c r]; [reflexivity|].
    simpl in *. apply negb_true_iff in HX. by rewrite HX.
  - simpl in Hd. apply andb_true_iff in Hd as [Hc Hd].
    rewrite str_app_cons. simpl. by rewrite Hc, (IH Hd).
Qed.

Lemma allDigits_uint (d : Decimal.uint) :
  allDigits (NilEmpty.string_of_uint d) = true.
Proof. induction d; simpl; auto. Qed.

Lemma allDigits_uint0 (d : Decimal.uint) :
  allDigits (NilZero.string_of_uint d) = true.
Proof. destruct d; try reflexivity; apply (allDigits_uint (_ _)). Qed.

Lemma uint0_cons (d : Decimal.uint) :
  exists c t, NilZero.string_of_uint d = String c t.
Proof. destruct d; simpl; eauto. Qed.

Lemma to_int_proper (n : Z) :
  Z.to_int n <> Decimal.Pos Decimal.Nil /\ Z.to_int n <> Decimal.Neg Decimal.Nil.
Proof.
  destruct n as [|p|p]; simpl; split; try discriminate;
    intros [= H]; by apply DecimalPos.Unsigned.to_uint_nonnil in H.
Qed.

(** An integer reads back as itself, whatever follows it. *)
Lemma parseInt_formatInt (n : Z) (X : string) :
  stopsNumber X = true -> parseInt (formatInt n +:+ X) = Some (n, X).
Proof.
  intros HX.
  assert (Hspan :
    match formatInt n +:+ X with
    | String c r =>
      if (code c =? 45)%N then let '(d, rest) := spanDigits r in (String c d, rest)
      else spanDigits (formatInt n +:+ X)
    | "" => ("", "")
    end = (formatInt n, X)).
  { unfold formatInt. destruct (Z.to_int n) as [d|d]; simpl.
    - pose proof (allDigits_uint0 d) as Hd.
      destruct (uint0_cons d) as (c & t & Ht). rewrite Ht in *.
      rewrite str_app_cons.
      assert (Hc : (code c =? 45)%N = false).
      { simpl in Hd. apply andb_true_iff in Hd as [Hc _]. revert Hc. clear.
        destruct c as [[] [] [] [] [] [] [] []]; first [discriminate | reflexivity]. }
      rewrite Hc, <- str_app_cons. by apply spanDigits_app.
    - by rewrite (spanDigits_app _ _ (allDigits_uint0 d) HX). }
  unfold parseInt. rewrite Hspan.
  destruct (to_int_proper n) as [Hp Hn].
  unfold formatInt at 1. rewrite (NilZero.isi _ Hp Hn), DecimalZ.of_to.
  by rewrite decide_True.
Qed.

Lemma formatInt_cons (n : Z) :
  exists c t, formatInt n = String c t /\ (code c =? 34)%N = false.
Proof.
  unfold formatInt. destruct (Z.to_int n) as [d|d]; simpl.
  - pose proof (allDigits_uint0 d) as Hd.
    destruct (uint0_cons d) as (c & t & Ht). rewrite Ht in *.
    exists c, t. split; [reflexivity|].
    simpl in Hd. apply andb_true_iff in Hd as [Hc _]. revert Hc. clear.
    destruct c as [[] [] [] [] [] [] [] []]; first [discriminate | reflexivity].
  - eauto.
Qed.

Lemma parseValue_marshalValue (v : any) (j X : string) :
  marshalValue v = inl j -> stopsNumber X = true ->
  exists w, valueOf v = Some w /\ parseValue (j +:+ X) = Some (w, X).
Proof.
  intros Hj HX. destruct v as [s|n|t]; simpl in Hj; [| |discriminate];
    injection Hj as <-.
  - exists (VString (coerce s)). split; [reflexivity|].
    unfold appendString. rewrite str_app_cons, str_app_assoc.
    unfold chr at 1. rewrite str_app_cons, str_app_nil_l.
    unfold parseValue. change (code dquote =? 34)%N with true. cbv iota.
    by rewrite unquote_quoteBody.
  - exists (VNumber n). split; [reflexivity|].
    destruct (formatInt_cons n) as (c & t & Hn & Hc).
    unfold parseValue.
    destruct (formatInt n +:+ X) as [|c' r] eqn:E.
    { rewrite Hn, str_app_cons in E. discriminate. }
    assert (c' = c) as -> by (rewrite Hn, str_app_cons in E; congruence).
    rewrite Hc, <- E. by rewrite parseInt_formatInt.
Qed.

Lemma parseMember_memberText (k : string) (v : any) (j X : string) :
  marshalValue v = inl j -> stopsNumber X = true ->
  exists m, memberOf (k, v) = Some m /\
    parseMember (memberText k j +:+ X) = Some (m, X).
Proof.
  intros Hj HX.
  destruct (parseValue_marshalValue v j X Hj HX) as (w & Hw & Hp).
  exists (coerce k, w). split; [unfold memberOf; simpl; by rewrite Hw|].
  unfold memberText, appendString.
  rewrite !str_app_cons, !str_app_assoc.
  unfold chr at 1. rewrite !str_app_cons, !str_app_nil_l.
  unfold parseMember. change (code dquote =? 34)%N with true. cbv iota.
  rewrite unquote_quoteBody.
  change (code ":" =? 58)%N with true. cbv iota.
  by rewrite Hp.
Qed.

Lemma marshalMembers_cons (k : string) (v : any) kvs (js : list string) :
  marshalMembers ((k, v) :: kvs) = inl js ->
  exists j js', marshalValue v = inl j /\ marshalMembers kvs = inl js' /\
    js = memberText k j :: js'.
Proof.
  simpl. destruct (marshalValue v) as [j|e]; [|discriminate].
  destruct (marshalMembers kvs) as [js'|e]; [|discriminate].
  intros [= <-]. eauto.
Qed.

Lemma marshalMembers_length kvs (js : list string) :
  marshalMembers kvs = inl js -> length js = length kvs.
Proof.
  revert js. induction kvs as [|[k v] kvs IH]; intros js H.
  - by injection H as <-.
  - apply marshalMembers_cons in H as (j & js' & _ & H' & ->).
    simpl. f_equal. by apply IH.
Qed.

Lemma parseMembers_S (fuel : nat) (s : string) :
  parseMembers (S fuel) s =
  match parseMember s with
  | Some (m, String sep rest) =>
    if (code sep =? 44)%N then
      match parseMembers fuel rest with
      | Some (ms, rest') => Some (m :: ms, rest')
      | None => None
      end
    else if (code sep =? 125)%N then Some ([m], rest)
    else None
  | _ => None
  end.
Proof. reflexivity. Qed.

(** The members of an object read back in the order they were written. *)
Lemma parseMembers_marshalMembers kvs (js : list string) (X : string) (fuel : nat) :
  marshalMembers kvs = inl js -> kvs <> [] -> (length kvs <= fuel)%nat ->
  exists ms, membersOf kvs = Some ms /\
    parseMembers fuel (String.concat "," js +:+ "}" +:+ X) = Some (ms, X).
Proof.
  revert js fuel. induction kvs as [|[k v] kvs IH]; intros js fuel Hjs Hne Hfuel;
    [done|].
  apply marshalMembers_cons in Hjs as (j & js' & Hj & Hjs' & ->).
  destruct fuel as [|fuel]; [simpl in Hfuel; lia|].
  destruct kvs as [|kv kvs].
  - injection Hjs' as <-. simpl String.concat.
    destruct (parseMember_memberText k v j ("}" +:+ X) Hj eq_refl) as (m & Hm & Hp).
    exists [m]. split; [simpl; by rewrite Hm|].
    by rewrite parseMembers_S, Hp.
  - destruct (IH js' fuel Hjs' ltac:(done) ltac:(simpl in *; lia)) as (ms & Hms & Hp).
    destruct js' as [|j' js''].
    { apply marshalMembers_length in Hjs'. discriminate. }
    change (String.concat "," (memberText k j :: j' :: js''))
      with (memberText k j +:+ "," +:+ String.concat "," (j' :: js'')).
    rewrite !str_app_assoc.
    destruct (parseMember_memberText k v j
      ("," +:+ String.concat "," (j' :: js'') +:+ "}" +:+ X) Hj eq_refl)
      as (m & Hm & Hpm).
    exists (m :: ms). split.
    { change (membersOf ((k, v) :: kv :: kvs))
        with (match memberOf (k, v), membersOf (kv :: kvs) with
              | Some m, Some ms => Some (m :: ms) | _, _ => None end).
      by rewrite Hm, Hms. }
    rewrite parseMembers_S, Hpm.
    rewrite (str_app_cons "," ""), str_app_nil_l.
    change (code "," =? 44)%N with true. cbv iota.
    by rewrite Hp.
Qed.

Lemma memberText_two (k j : string) :
  exists a b t, memberText k j = String a (String b t).
Proof.
  unfold memberText, appendString. rewrite str_app_cons, str_app_assoc.
  destruct (quoteBody k) as [|c t].
  - rewrite str_app_nil_l. unfold chr. rewrite str_app_cons. eauto.
  - rewrite str_app_cons. eauto.
Qed.

Lemma marshalMembers_fuel kvs (js : list string) (X : string) :
  marshalMembers kvs = inl js ->
  (length kvs <= String.length (String.concat "," js +:+ X))%nat.
Proof.
  revert js. induction kvs as [|[k v] kvs IH]; intros js H; [simpl; lia|].
  apply marshalMembers_cons in H as (j & js' & _ & H' & ->).
  destruct (memberText_two k j) as (a & b & t & Ht).
  destruct js' as [|j' js''].
  - apply marshalMembers_length in H'. destruct kvs; [|discriminate].
    simpl String.concat. rewrite Ht, !str_length_app. simpl. lia.
  - specialize (IH _ H').
    change (String.concat "," (memberText k j :: j' :: js''))
      with (memberText k j +:+ "," +:+ String.concat "," (j' :: js'')).
    rewrite Ht, !str_length_app in *. cbn [String.length length]. lia.
Qed.

(** What the decoder refuses: a text that stops early, a number with a
    leading zero, text after the closing brace, a raw control byte in a
    literal, a byte that is not UTF-8. *)
Example parseObject_refuses :
  parseObject ("{" +:+ quoted "a" +:+ ":1}") = Some [("a", VNumber 1)]
  /\ parseObject "{" = None
  /\ parseObject ("{" +:+ quoted "a" +:+ ":1") = None
  /\ parseObject ("{" +:+ quoted "a" +:+ ":01}") = None
  /\ parseObject ("{" +:+ quoted "a" +:+ ":1}x") = None
  /\ parseObject ("{" +:+ quoted (chr newline) +:+ ":1}") = None
  /\ parseObject ("{" +:+ quoted (chr (ascii_of_N 255)) +:+ ":1}") = None.
Proof. repeat split; vm_compute; reflexivity. Qed.

(** *** What the encoder writes is UTF-8 *)

Lemma allASCII_escapeByte (c : ascii) : allASCII (escapeByte c) = true.
Proof. destruct c as [[] [] [] [] [] [] [] []]; reflexivity. Qed.

Lemma valid_escapeRune (q : string) : coerce q = q -> coerce (escapeRune q) = escapeRune q.
Proof.
  intros H. unfold escapeRune.
  destruct (decide (q = lineSep)); [reflexivity|].
  destruct (decide (q = paraSep)); [reflexivity|done].
Qed.

Lemma valid_quoteBody (s : string) : coerce (quoteBody s) = quoteBody s.
Proof.
  induction s as [s IH] using str_length_ind.
  unfold quoteBody. rewrite forRunes_unfold.
  destruct (DecodeRuneInString s) as [[[c|q|] r]|] eqn:Hd; [| | |reflexivity];
    fold (quoteBody r); apply coerce_valid_app;
    try (apply IH; eauto using DecodeRuneInString_shorter).
  - apply coerce_allASCII, allASCII_escapeByte.
  - apply valid_escapeRune, (coerce_Seq _ _ _ Hd).
  - reflexivity.
Qed.

Lemma valid_appendString (s : string) : coerce (appendString s) = appendString s.
Proof.
  unfold appendString. apply (coerce_valid_app (chr dquote)); [reflexivity|].
  apply coerce_valid_app; [apply valid_quoteBody|reflexivity].
Qed.

Lemma allASCII_allDigits (d : string) : allDigits d = true -> allASCII d = true.
Proof.
  induction d as [|c d IH]; [reflexivity|]. simpl. intros H.
  apply andb_true_iff in H as [Hc Hd]. rewrite (IH Hd), andb_true_r.
  revert Hc. clear.
  destruct c as [[] [] [] [] [] [] [] []]; first [discriminate | reflexivity].
Qed.

Lemma valid_formatInt (n : Z) : coerce (formatInt n) = formatInt n.
Proof.
  apply coerce_allASCII. unfold formatInt. destruct (Z.to_int n) as [d|d]; simpl;
    by rewrite (allASCII_allDigits _ (allDigits_uint0 d)).
Qed.

Lemma valid_marshalMembers kvs (js : list string) :
  marshalMembers kvs = inl js -> coerce (String.concat "," js) = String.concat "," js.
Proof.
  revert js. induction kvs as [|[k v] kvs IH]; intros js H.
  - by injection H as <-.
  - apply marshalMembers_cons in H as (j & js' & Hj & H' & ->).
    assert (Hm : coerce (memberText k j) = memberText k j).
    { unfold memberText. apply coerce_valid_app; [apply valid_appendString|].
      apply (coerce_valid_app ":"); [reflexivity|].
      destruct v as [s|n|t]; simpl in Hj; [| |discriminate]; injection Hj as <-.
      - apply valid_appendString.
      - apply valid_formatInt. }
    specialize (IH _ H'). destruct js' as [|j' js'']; [done|].
    change (String.concat "," (memberText k j :: j' :: js''))
      with (memberText k j +:+ "," +:+ String.concat "," (j' :: js'')).
    apply coerce_valid_app; [done|]. by apply (coerce_valid_app ",").
Qed.

(** The text [json.Marshal] returns is well-formed UTF-8. *)
Lemma valid_Marshal (m : gmap string any) (j : string) :
  Marshal m = inl j -> coerce j = j.
Proof.
  unfold Marshal. destruct (marshalMembers (sortedPairs m)) as [js|e] eqn:Hjs;
    [|discriminate].
  intros [= <-]. apply (coerce_valid_app "{"); [reflexivity|].
  apply coerce_valid_app; [by apply (valid_marshalMembers _ _ Hjs)|reflexivity].
Qed.

(** Round trip: the text [json.Marshal] returns is one JSON object, and it
    reads back as the members of the map in key order, each string replaced
    by the text it denotes. *)
Lemma parseObject_Marshal (m : gmap string any) (j : string) :
  Marshal m = inl j ->
  exists ms, membersOf (sortedPairs m) = Some ms /\ parseObject j = Some ms.
Proof.
  intros HM. unfold parseObject. rewrite decide_True by apply (valid_Marshal _ _ HM).
  revert HM.
  unfold Marshal. destruct (marshalMembers (sortedPairs m)) as [js|e] eqn:Hjs;
    [|discriminate].
  intros [= <-]. destruct (sortedPairs m) as [|[k v] kvs] eqn:Hkvs.
  - injection Hjs as <-. exists []. split; reflexivity.
  - pose proof (marshalMembers_fuel _ _ "}" Hjs) as Hfuel.
    destruct (parseMembers_marshalMembers _ _ "" _ Hjs ltac:(done) Hfuel)
      as (ms & Hms & Hp).
    exists ms. split; [done|].
    rewrite str_app_nil_r in Hp.
    apply marshalMembers_cons in Hjs as (j0 & js' & _ & _ & ->).
    assert (exists a b t, String.concat "," (memberText k j0 :: js') +:+ "}"
                          = String a (String b t)) as (a & b & t & Ht).
    { destruct (memberText_two k j0) as (a & b & t & Ht).
      destruct js'; simpl String.concat.
      - rewrite Ht, !str_app_cons. eauto.
      - change (String.append (memberText k j0)) with (String.app (memberText k j0)).
        rewrite Ht, !str_app_cons. eauto. }
    rewrite str_app_cons, str_app_nil_l.
    change (code "{" =? 123)%N with true. cbv iota.
    rewrite Ht in *. by rewrite Hp.
Qed.

(** *** A log line is one line *)

Lemma occurs_escapeByte (c : ascii) : occurs newline (escapeByte c) = false.
Proof. destruct c as [[] [] [] [] [] [] [] []]; reflexivity. Qed.

Lemma occurs_allHigh (q : string) : allHigh q = true -> occurs newline q = false.
Proof.
  induction q as [|c q IH]; [reflexivity|]. simpl. intros H.
  apply andb_true_iff in H as [Hc Hq]. rewrite (IH Hq), orb_false_r.
  revert Hc. clear.
  destruct c as [[] [] [] [] [] [] [] []]; first [discriminate | reflexivity].
Qed.

Lemma occurs_escapeRune (q : string) :
  allHigh q = true -> occurs newline (escapeRune q) = false.
Proof.
  intros H. unfold escapeRune.
  destruct (decide (q = lineSep)); [reflexivity|].
  destruct (decide (q = paraSep)); [reflexivity|].
  by apply occurs_allHigh.
Qed.

Lemma occurs_quoteBody (s : string) : occurs newline (quoteBody s) = false.
Proof.
  induction s as [s IH] using str_length_ind.
  unfold quoteBody. rewrite forRunes_unfold.
  destruct (DecodeRuneInString s) as [[[c|q|] r]|] eqn:Hd; [| | |reflexivity];
    rewrite occurs_app; fold (quoteBody r);
    rewrite (IH r) by eauto using DecodeRuneInString_shorter;
    rewrite orb_false_r.
  - apply occurs_escapeByte.
  - destruct (DecodeRuneInString_Seq _ _ _ Hd) as (Hq & _ & _).
    by apply occurs_escapeRune.
  - reflexivity.
Qed.

Lemma occurs_appendString (s : string) : occurs newline (appendString s) = false.
Proof.
  unfold appendString. simpl. by rewrite occurs_app, occurs_quoteBody.
Qed.

Lemma occurs_allDigits (d : string) : allDigits d = true -> occurs newline d = false.
Proof.
  induction d as [|c d IH]; [reflexivity|]. simpl. intros H.
  apply andb_true_iff in H as [Hc Hd]. rewrite (IH Hd), orb_false_r.
  revert Hc. clear.
  destruct c as [[] [] [] [] [] [] [] []]; first [discriminate | reflexivity].
Qed.

Lemma occurs_formatInt (n : Z) : occurs newline (formatInt n) = false.
Proof.
  unfold formatInt. destruct (Z.to_int n) as [d|d]; simpl;
    by rewrite (occurs_allDigits _ (allDigits_uint0 d)).
Qed.

Lemma occurs_marshalMembers kvs (js : list string) :
  marshalMembers kvs = inl js -> occurs newline (String.concat "," js) = false.
Proof.
  revert js. induction kvs as [|[k v] kvs IH]; intros js H.
  - by injection H as <-.
  - apply marshalMembers_cons in H as (j & js' & Hj & H' & ->).
    assert (Hm : occurs newline (memberText k j) = false).
    { unfold memberText. rewrite !occurs_app, occurs_appendString. simpl.
      destruct v as [s|n|t]; simpl in Hj; [| |discriminate]; injection Hj as <-.
      - apply occurs_appendString.
      - apply occurs_formatInt. }
    specialize (IH _ H'). destruct js' as [|j' js'']; [done|].
    change (String.concat "," (memberText k j :: j' :: js''))
      with (memberText k j +:+ "," +:+ String.concat "," (j' :: js'')).
    by rewrite !occurs_app, Hm, IH.
Qed.

(** The text [json.Marshal] returns holds no newline. *)
Lemma occurs_Marshal (m : gmap string any) (j : string) :
  Marshal m = inl j -> occurs newline j = false.
Proof.
  unfold Marshal. destruct (marshalMembers (sortedPairs m)) as [js|e] eqn:Hjs;
    [|discriminate].
  intros [= <-]. rewrite !occurs_app, (occurs_marshalMembers _ _ Hjs). reflexivity.
Qed.

(** *** The members of a map *)

Lemma sortedPairs_elem {A} (m : gmap string A) (k : string) (v : A) :
  (k, v) ∈ sortedPairs m <-> m !! k = Some v.
Proof.
  unfold sortedPairs. rewrite merge_sort_Permutation. apply elem_of_map_to_list.
Qed.

Lemma marshalMembers_supported kvs :
  Forall (fun kv => supported kv.2) kvs -> exists js, marshalMembers kvs = inl js.
Proof.
  induction 1 as [|[k v] kvs Hv _ [js IH]]; [by exists []|].
  simpl. destruct v as [s|n|t]; [| |done]; simpl; rewrite IH; eauto.
Qed.

(** [json.Marshal] returns no error for a map of strings and ints. *)
Lemma Marshal_supported (m : gmap string any) :
  allSupported m -> exists j, Marshal m = inl j.
Proof.
  intros H. unfold Marshal.
  destruct (marshalMembers_supported (sortedPairs m)) as [js ->]; [|eauto].
  apply Forall_forall. intros [k v] Hkv. apply sortedPairs_elem in Hkv.
  by apply (H k v).
Qed.

Lemma membersOf_elem kvs (ms : list member) (k : string) (v : any) :
  membersOf kvs = Some ms -> (k, v) ∈ kvs ->
  exists x, valueOf v = Some x /\ (coerce k, x) ∈ ms.
Proof.
  revert ms. induction kvs as [|kv kvs IH]; intros ms Hms Hin.
  - by apply elem_of_nil in Hin.
  - simpl in Hms. destruct (memberOf kv) as [m0|] eqn:Hm0; [|discriminate].
    destruct (membersOf kvs) as [ms'|]; [|discriminate].
    injection Hms as <-. apply elem_of_cons in Hin as [<-|Hin].
    + unfold memberOf in Hm0. simpl in Hm0.
      destruct (valueOf v) as [x|]; [|discriminate]. injection Hm0 as <-.
      exists x. split; [done|]. by left.
    + destruct (IH _ eq_refl Hin) as (x & Hx & Hin'). exists x. split; [done|].
      by right.
Qed.

Lemma membersOf_source kvs (ms : list member) (m : member) :
  membersOf kvs = Some ms -> m ∈ ms ->
  exists k v, (k, v) ∈ kvs /\ memberOf (k, v) = Some m.
Proof.
  revert ms. induction kvs as [|[k v] kvs IH]; intros ms Hms Hin.
  - injection Hms as <-. by apply elem_of_nil in Hin.
  - cbn [membersOf] in Hms.
    destruct (memberOf (k, v)) as [m0|] eqn:Hm0; [|discriminate].
    destruct (membersOf kvs) as [ms'|]; [|discriminate].
    injection Hms as <-. apply elem_of_cons in Hin as [->|Hin].
    + exists k, v. split; [by left|done].
    + destruct (IH _ eq_refl Hin) as (k' & v' & Hin' & Hm). exists k', v'.
      split; [by right|done].
Qed.

(** *** The members as a mapping *)





End JsonFacts.

(** ** The logger *)

Module LoggerFacts.
Import Bytes BytesFacts GoStrings Json JsonFacts Go logger.

(** *** The model *)

Lemma setLock_release (l : Logger) : lock l = false -> setLock false (setLock true l) = l.
Proof. destruct l; simpl; by intros ->. Qed.

Lemma setWriter_setLock (v : Writer) (b : bool) (l : Logger) :
  setLock b (setWriter v l) = setWriter v (setLock b l).
Proof. reflexivity. Qed.

(** One merge step is a union in which the extra fields win. *)
Lemma addExtra_lookup (entry : gmap string any) (extra : gmap string string) (k : string) :
  addExtra entry extra !! k =
  match extra !! k with
  | Some v => Some (AString v)
  | None => entry !! k
  end.
Proof.
  unfold addExtra.
  apply (map_fold_weak_ind
    (fun r (m : gmap string string) =>
       r !! k = match m !! k with Some v => Some (AString v) | None => entry !! k end)).
  - by rewrite lookup_empty.
  - intros i x m r Hi IH. destruct (decide (i = k)) as [->|Hne].
    + by rewrite !lookup_insert_eq.
    + by rewrite !lookup_insert_ne.
Qed.

Lemma addExtras_app (entry : gmap string any) (xs ys : list (gmap string string)) :
  addExtras entry (xs ++ ys) = addExtras (addExtras entry xs) ys.
Proof. apply foldl_app. Qed.

(** A key that no extra mapping binds keeps the value of the entry. *)
Lemma addExtras_lookup_None (entry : gmap string any) (extras : list (gmap string string))
    (k : string) :
  (forall x, x ∈ extras -> x !! k = None) ->
  addExtras entry extras !! k = entry !! k.
Proof.
  revert entry. induction extras as [|x xs IH]; intros entry H; [reflexivity|].
  simpl. rewrite IH.
  - rewrite addExtra_lookup, (H x); [reflexivity|]. by left.
  - intros y Hy. apply H. by right.
Qed.

(** The last mapping that binds a key decides its value. *)
Lemma addExtras_lookup_last (entry : gmap string any)
    (pre post : list (gmap string string)) (x : gmap string string) (k v : string) :
  x !! k = Some v -> (forall y, y ∈ post -> y !! k = None) ->
  addExtras entry (pre ++ x :: post) !! k = Some (AString v).
Proof.
  intros Hx Hpost. rewrite addExtras_app. simpl.
  rewrite (addExtras_lookup_None _ _ _ Hpost), addExtra_lookup, Hx. reflexivity.
Qed.



Lemma newEntry_supported logger msg level now : allSupported (newEntry logger msg level now).
Proof.
  intros k v. unfold newEntry.
  rewrite !lookup_insert, lookup_empty.
  repeat case_decide; first [intros [= <-]; exact I | discriminate].
Qed.

Lemma addExtra_supported entry extra : allSupported entry -> allSupported (addExtra entry extra).
Proof.
  intros H k v. rewrite addExtra_lookup. destruct (extra !! k).
  - by intros [= <-].
  - apply H.
Qed.

Lemma addExtras_supported entry extras : allSupported entry -> allSupported (addExtras entry extras).
Proof.
  revert entry. induction extras as [|x xs IH]; intros entry H; [done|].
  simpl. by apply IH, addExtra_supported.
Qed.

Lemma entryOf_supported os logger msg level extras w :
  allSupported (entryOf os logger msg level extras w).
Proof. apply addExtras_supported, newEntry_supported. Qed.

Lemma Marshal_entryOf os logger msg level extras w :
  exists j, Marshal (entryOf os logger msg level extras w) = inl j.
Proof. apply Marshal_supported, entryOf_supported. Qed.

Lemma lineOf_Marshal os logger msg level extras w (j : string) :
  Marshal (entryOf os logger msg level extras w) = inl j ->
  lineOf os logger msg level extras w = j +:+ chr newline.
Proof. unfold lineOf. by intros ->. Qed.

(** The body of [Log], with its call of [Error]. *)
Lemma Log_unfold os fuel logger msg level extras w :
  Log os (S fuel) logger msg level extras w =
  if lock logger then Blocked (logger, w)
  else
    let logger := setLock true logger in
    match Marshal (entryOf os logger msg level extras w) with
    | inr err =>
      let '(_, w) :=
        perform os
          (WriteString (writer logger) ("Error marshalling log entry JSON: " +:+ err)) w in
      Returned (Some err) (setLock false logger, w)
    | inl logJson =>
      let '(r, w) :=
        perform os (WriteString (writer logger) (logJson +:+ chr newline)) w in
      match r with
      | Some err =>
        let logger := setWriter (FileWriter Stdout) logger in
        match Error os fuel logger ("Error writing to log: " +:+ err) [] w with
        | Returned _ (logger, w) => Returned (Some err) (setLock false logger, w)
        | Panicked reason (logger, w) => Panicked reason (setLock false logger, w)
        | Blocked s => Blocked s
        | OutOfFuel => OutOfFuel
        end
      | None => Returned None (setLock false logger, w)
      end
    end.
Proof. reflexivity. Qed.

(** Taking the mutex while it is held never returns. *)
Lemma Log_locked os fuel logger msg level extras w :
  lock logger = true -> Log os (S fuel) logger msg level extras w = Blocked (logger, w).
Proof. intros H. by rewrite Log_unfold, H. Qed.

(** What a call of [Log] does when the mutex is free: it writes the line
    once; if the write fails it turns to the console and calls [Error],
    which blocks on the mutex unless the threshold silences it. *)
Lemma Log_spec os fuel logger msg level extras w :
  lock logger = false ->
  Log os (S (S fuel)) logger msg level extras w =
  let c := WriteString (writer logger) (lineOf os logger msg level extras w) in
  match respond os w c with
  | None => Returned None (logger, c :: w)
  | Some err =>
    if (ErrorLevel >=? LogLevel logger)%Z
    then Blocked (setWriter (FileWriter Stdout) (setLock true logger), c :: w)
    else Returned (Some err) (setWriter (FileWriter Stdout) logger, c :: w)
  end.
Proof.
  intros Hfree. rewrite Log_unfold, Hfree.
  destruct (Marshal_entryOf os logger msg level extras w) as [j Hj].
  rewrite (lineOf_Marshal _ _ _ _ _ _ _ Hj). cbv zeta.
  change (entryOf os (setLock true logger) msg level extras w)
    with (entryOf os logger msg level extras w).
  rewrite Hj. unfold perform.
  change (writer (setLock true logger)) with (writer logger).
  destruct (respond os w _) as [err|].
  - unfold Error.
    change (LogLevel (setWriter (FileWriter Stdout) (setLock true logger)))
      with (LogLevel logger).
    destruct (ErrorLevel >=? LogLevel logger)%Z.
    + by rewrite Log_locked.
    + by rewrite setWriter_setLock, setLock_release.
  - by rewrite setLock_release.
Qed.

(** Enough fuel: two levels of [Log] are all a call ever uses. *)
Lemma Log_fuel os fuel logger msg level extras w :
  (2 <= fuel)%nat ->
  Log os fuel logger msg level extras w = Log os 2 logger msg level extras w.
Proof.
  intros H. destruct fuel as [|[|fuel]]; [lia..|].
  destruct (lock logger) eqn:Hl.
  - by rewrite !Log_locked.
  - by rewrite !Log_spec.
Qed.

(** With depth 2 the model of [Log] always says how the call ends. *)
Lemma Log_decided os fuel logger msg level extras w :
  (2 <= fuel)%nat -> Log os fuel logger msg level extras w <> OutOfFuel.
Proof.
  intros Hfuel. rewrite (Log_fuel _ _ _ _ _ _ _ Hfuel).
  destruct (lock logger) eqn:Hl.
  - by rewrite Log_locked.
  - rewrite Log_spec by done. cbv zeta. destruct (respond os w _); [|done].
    by destruct (ErrorLevel >=? LogLevel logger)%Z.
Qed.

(** A call of [Log] that returns has released the mutex: between two calls
    made one after the other the mutex is free. *)
Lemma Log_releases os fuel logger msg level extras w a logger' w' :
  lock logger = false -> (2 <= fuel)%nat ->
  Log os fuel logger msg level extras w = Returned a (logger', w') ->
  lock logger' = false.
Proof.
  intros Hfree Hfuel. rewrite (Log_fuel _ _ _ _ _ _ _ Hfuel), Log_spec by done.
  cbv zeta. destruct (respond os w _).
  - destruct (ErrorLevel >=? LogLevel logger)%Z; [discriminate|]. by intros [= _ <- _].
  - by intros [= _ <- _].
Qed.

Lemma leveled_unfold (s : Severity) os fuel logger msg extras w :
  leveled s os fuel logger msg extras w =
  if (levelOf s >=? LogLevel logger)%Z
  then Log os fuel logger msg (levelOf s) extras w
  else Returned None (logger, w).
Proof. by destruct s. Qed.

(** A call of [Log] with the mutex free leaves exactly one new call in the
    world: the write of the line. *)
Lemma Log_writes os fuel logger msg level extras w :
  lock logger = false -> (2 <= fuel)%nat ->
  exists logger',
    stateOf (Log os fuel logger msg level extras w) =
    Some (logger', WriteString (writer logger) (lineOf os logger msg level extras w) :: w).
Proof.
  intros Hfree Hfuel. rewrite (Log_fuel _ _ _ _ _ _ _ Hfuel), Log_spec by done.
  cbv zeta. destruct (respond os w _) as [err|]; [|by eexists].
  destruct (ErrorLevel >=? LogLevel logger)%Z; by eexists.
Qed.

(** The reserved names are plain ASCII: they read back as they are. *)
Lemma coerce_reserved (r : string) : r ∈ reserved -> Utf8.coerce r = r.
Proof.
  unfold reserved. rewrite !elem_of_cons, elem_of_nil.
  intros [->|[->|[->|[->|[->|[->|[->|[]]]]]]]]; reflexivity.
Qed.


Lemma newEntry_keys logger msg level now (k : string) :
  is_Some (newEntry logger msg level now !! k) -> k ∈ reserved.
Proof.
  unfold newEntry, reserved. rewrite !lookup_insert, lookup_empty.
  repeat case_decide; subst; intros [v Hv]; try discriminate;
    rewrite !elem_of_cons; tauto.
Qed.

(** A key of the merged entry is a key of the entry or of a mapping. *)
Lemma addExtras_keys (entry : gmap string any) (extras : list (gmap string string))
    (k : string) :
  is_Some (addExtras entry extras !! k) ->
  is_Some (entry !! k) \/ exists x, x ∈ extras /\ is_Some (x !! k).
Proof.
  revert entry. induction extras as [|x xs IH]; intros entry H; [by left|].
  simpl in H. destruct (IH _ H) as [Hk|(y & Hy & Hk)].
  - rewrite addExtra_lookup in Hk. destruct (x !! k) as [v|] eqn:Hx.
    + right. exists x. split; [by left|]. rewrite Hx. eauto.
    + by left.
  - right. exists y. split; [by right|done].
Qed.

(** The line of a call: one JSON object with no newline in it, which reads
    back as the members of the merged entry. *)
Lemma lineOf_members os logger msg level extras w :
  exists j ms,
    Marshal (entryOf os logger msg level extras w) = inl j
    /\ lineOf os logger msg level extras w = j +:+ chr newline
    /\ occurs newline j = false
    /\ parseObject j = Some ms
    /\ membersOf (sortedPairs (entryOf os logger msg level extras w)) = Some ms.
Proof.
  destruct (Marshal_entryOf os logger msg level extras w) as [j Hj].
  destruct (parseObject_Marshal _ _ Hj) as (ms & Hms & Hp).
  exists j, ms. repeat split; try done.
  - by apply lineOf_Marshal.
  - by apply (occurs_Marshal _ _ Hj).
Qed.


(** *** The claims about the logger *)

(** C5. [SetLogLevel] maps exactly the lower-case names fatal, error,
    warn, info and debug to 60, 50, 40, 30 and 20; every other string
    (trace, the empty string, another case) sets the threshold to
    TraceLevel, at or below each of the six severities, so that every
    record passes.  It returns nothing but the logger, of which only the
    threshold changed. *)
Theorem SetLogLevel_levels (logger : Logger) (level : string) :
  LogLevel (SetLogLevel logger "fatal") = 60
  /\ LogLevel (SetLogLevel logger "error") = 50
  /\ LogLevel (SetLogLevel logger "warn") = 40
  /\ LogLevel (SetLogLevel logger "info") = 30
  /\ LogLevel (SetLogLevel logger "debug") = 20
  /\ (level ∉ ["fatal"; "error"; "warn"; "info"; "debug"] ->
      LogLevel (SetLogLevel logger level) = TraceLevel
      /\ forall s, LogLevel (SetLogLevel logger level) <= levelOf s)
  /\ LogLevel (SetLogLevel logger "trace") = TraceLevel
  /\ LogLevel (SetLogLevel logger "") = TraceLevel
  /\ LogLevel (SetLogLevel logger "FATAL") = TraceLevel
  /\ SetLogLevel logger level = setLogLevel (LogLevel (SetLogLevel logger level)) logger.
Proof.
  assert (Hother : level ∉ ["fatal"; "error"; "warn"; "info"; "debug"] ->
                   SetLogLevel logger level = setLogLevel TraceLevel logger).
  { intros H. unfold SetLogLevel.
    repeat (destruct (decide _) as [->|_]; [exfalso; apply H; repeat constructor|]).
    reflexivity. }
  repeat split; try reflexivity.
  - by rewrite Hother.
  - intros s. rewrite Hother by done. destruct s; vm_compute; discriminate.
  - unfold SetLogLevel. repeat (destruct (decide _) as [_|_]; [reflexivity|]).
    reflexivity.
Qed.

(** A leveled operation: the write of [Log] at or above the threshold,
    nothing below it. *)
Lemma leveled_spec (s : Severity) os fuel logger msg extras w :
  lock logger = false -> (2 <= fuel)%nat ->
  (LogLevel logger <= levelOf s ->
     leveled s os fuel logger msg extras w = Log os fuel logger msg (levelOf s) extras w
     /\ exists logger',
          stateOf (leveled s os fuel logger msg extras w) =
          Some (logger',
                WriteString (writer logger) (lineOf os logger msg (levelOf s) extras w) :: w))
  /\ (levelOf s < LogLevel logger ->
      leveled s os fuel logger msg extras w = Returned None (logger, w)).
Proof.
  intros Hfree Hfuel. rewrite leveled_unfold.
  destruct (Z.geb_spec (levelOf s) (LogLevel logger)) as [Hge|Hlt].
  - split; [|lia]. intros _. split; [done|]. by apply Log_writes.
  - split; [lia|done].
Qed.

(** C1. For each of the six severities (10, 20, 30, 40, 50, 60) and every
    threshold, the leveled operation writes the record (it calls the
    writer with the serialized line) if and only if the severity is at or
    above the threshold; below it, the call returns no error and leaves
    the logger and the world as they were. *)
Theorem leveled_writes_iff (s : Severity) os fuel logger msg extras w :
  lock logger = false -> (2 <= fuel)%nat ->
  let o := leveled s os fuel logger msg extras w in
  exists j,
    Marshal (entryOf os logger msg (levelOf s) extras w) = inl j
    /\ levelOf <$> [trace; debug; info; warn; error_; fatal] = [10; 20; 30; 40; 50; 60]
    /\ ((exists logger',
          stateOf o = Some (logger', WriteString (writer logger) (j +:+ chr newline) :: w))
        <-> LogLevel logger <= levelOf s)
    /\ (LogLevel logger <= levelOf s -> o = Log os fuel logger msg (levelOf s) extras w)
    /\ (levelOf s < LogLevel logger -> o = Returned None (logger, w)).
Proof.
  intros Hfree Hfuel o. subst o.
  destruct (Marshal_entryOf os logger msg (levelOf s) extras w) as [j Hj].
  exists j. split; [done|]. split; [reflexivity|].
  rewrite <- (lineOf_Marshal _ _ _ _ _ _ _ Hj).
  destruct (leveled_spec s os fuel logger msg extras w Hfree Hfuel) as [Hge Hlt].
  destruct (Z.le_gt_cases (LogLevel logger) (levelOf s)) as [H|H].
  - destruct (Hge H) as [Heq Hw]. split; [|split; [done|lia]]. split; [done|].
    intros _. exact Hw.
  - split; [|split; [lia|by intros _; apply Hlt]]. split; [|lia].
    rewrite (Hlt H). intros [logger' Hs]. simpl in Hs. injection Hs as _ Hs.
    exfalso. apply (f_equal length) in Hs. simpl in Hs. lia.
Qed.

Lemma leveled_writes_iff_witness :
  (* threshold warn: info is silent, error writes *)
  leveled info healthy 2 (SetLogLevel fileLogger "warn") "x" [] []
    = Returned None (SetLogLevel fileLogger "warn", [])
  /\ leveled error_ healthy 2 (SetLogLevel fileLogger "warn") "x" [] []
    = Log healthy 2 (SetLogLevel fileLogger "warn") "x" ErrorLevel [] [].
Proof.
  split.
  - destruct (leveled_writes_iff info healthy 2 (SetLogLevel fileLogger "warn") "x" [] [])
      as (_ & _ & _ & _ & _ & H); [reflexivity | lia |].
    apply H. vm_compute. reflexivity.
  - destruct (leveled_writes_iff error_ healthy 2 (SetLogLevel fileLogger "warn") "x" [] [])
      as (_ & _ & _ & _ & H & _); [reflexivity | lia |].
    apply H. vm_compute. discriminate.
Defined.

(** C9. [Log] itself compares nothing with the threshold: whatever the
    level and the threshold, also with the level below it, a direct call
    serializes the entry and writes the line, while each of the six
    operations is silent below the threshold. *)
Theorem Log_has_no_threshold os fuel logger msg level extras w :
  lock logger = false -> (2 <= fuel)%nat ->
  (exists j logger',
     Marshal (entryOf os logger msg level extras w) = inl j
     /\ stateOf (Log os fuel logger msg level extras w) =
        Some (logger', WriteString (writer logger) (j +:+ chr newline) :: w))
  /\ (forall s, levelOf s < LogLevel logger ->
      leveled s os fuel logger msg extras w = Returned None (logger, w)).
Proof.
  intros Hfree Hfuel. split.
  - destruct (Marshal_entryOf os logger msg level extras w) as [j Hj].
    destruct (Log_writes os fuel logger msg level extras w Hfree Hfuel) as [l' Hl'].
    exists j, l'. split; [done|]. by rewrite <- (lineOf_Marshal _ _ _ _ _ _ _ Hj).
  - intros s Hs. by apply leveled_spec.
Qed.

Lemma Log_has_no_threshold_witness :
  exists j logger',
    Marshal (entryOf healthy (SetLogLevel fileLogger "fatal") "x" TraceLevel [] []) = inl j
    /\ stateOf (Log healthy 2 (SetLogLevel fileLogger "fatal") "x" TraceLevel [] []) =
       Some (logger', [WriteString (FileWriter (Opened "app.log")) (j +:+ chr newline)]).
Proof.
  apply (Log_has_no_threshold healthy 2 (SetLogLevel fileLogger "fatal") "x" TraceLevel [] []);
    [reflexivity | lia].
Defined.

(** C10. Serializing a log entry never fails: its values are strings and
    ints only.  So the branch of [Log] that writes the text of a marshal
    error is never taken, the one call [Log] makes is the write of the
    line, and when [Log] returns an error it is the error of that write. *)
Theorem Log_error_is_write_error os fuel logger msg level extras w :
  exists j,
    Marshal (entryOf os logger msg level extras w) = inl j
    /\ (forall err st,
          Log os fuel logger msg level extras w = Returned (Some err) st ->
          respond os w (WriteString (writer logger) (j +:+ chr newline)) = Some err)
    /\ (forall st,
          stateOf (Log os fuel logger msg level extras w) = Some st ->
          st.2 = w \/ st.2 = WriteString (writer logger) (j +:+ chr newline) :: w).
Proof.
  destruct (Marshal_entryOf os logger msg level extras w) as [j Hj].
  exists j. split; [done|].
  destruct fuel as [|fuel]; [split; intros; discriminate|].
  rewrite Log_unfold. destruct (lock logger) eqn:Hl.
  { split; [intros; discriminate|]. intros st [= <-]. by left. }
  cbv zeta.
  change (entryOf os (setLock true logger) msg level extras w)
    with (entryOf os logger msg level extras w).
  rewrite Hj. unfold perform.
  change (writer (setLock true logger)) with (writer logger).
  destruct (respond os w _) as [err|] eqn:Hr.
  - unfold Error.
    destruct (ErrorLevel >=? _)%Z.
    + destruct fuel as [|fuel]; [split; intros; discriminate|].
      rewrite Log_locked by reflexivity.
      split; [intros; discriminate|]. intros st [= <-]. by right.
    + split; [by intros ? ? [= <- _]|]. intros st [= <-]. by right.
  - split; [intros; discriminate|]. intros st [= <-]. by right.
Qed.

(** C2, as the code has it.  When the write of the line fails, [Log] turns
    the writer to the console and calls [Error] while it still holds the
    mutex.  With the threshold at or below the error level that call takes
    the mutex again and never returns: no error record is written and the
    caller gets nothing back.  With the threshold above it the call is
    silenced: the write error is returned, and again no error record is
    written. *)
Theorem Log_write_failure os fuel logger msg level extras w (j : string) (err : error) :
  lock logger = false -> (2 <= fuel)%nat ->
  Marshal (entryOf os logger msg level extras w) = inl j ->
  respond os w (WriteString (writer logger) (j +:+ chr newline)) = Some err ->
  let c := WriteString (writer logger) (j +:+ chr newline) in
  Log os fuel logger msg level extras w =
  if (ErrorLevel >=? LogLevel logger)%Z
  then Blocked (setWriter (FileWriter Stdout) (setLock true logger), c :: w)
  else Returned (Some err) (setWriter (FileWriter Stdout) logger, c :: w).
Proof.
  intros Hfree Hfuel Hj Hr c. rewrite (Log_fuel _ _ _ _ _ _ _ Hfuel), Log_spec by done.
  cbv zeta. rewrite (lineOf_Marshal _ _ _ _ _ _ _ Hj). by rewrite Hr.
Qed.

Lemma Log_write_failure_witness :
  Log diskFull 2 fileLogger "hello" InfoLevel [] [] =
  Blocked (setWriter (FileWriter Stdout) (setLock true fileLogger),
           [WriteString (FileWriter (Opened "app.log")) (helloLine +:+ chr newline)]).
Proof.
  apply (Log_write_failure diskFull 2 fileLogger "hello" InfoLevel [] [] helloLine "disk full");
    [reflexivity | lia | vm_compute; reflexivity | reflexivity].
Defined.






Example started_line_members :
  Log healthy 2 fileLogger "started" InfoLevel [userAnn] [] =
  Returned None
    (fileLogger, [WriteString (FileWriter (Opened "app.log")) (startedLine +:+ chr newline)])
  /\ parseObject startedLine =
     Some [("hostname", VString "host1"); ("level", VNumber 30);
           ("msg", VString "started"); ("name", VString "svc"); ("pid", VNumber 1234);
           ("time", VString "2024-01-01T00:00:00.000Z"); ("user", VString "ann");
           ("v", VNumber 0)].
Proof. split; vm_compute; reflexivity. Qed.

(** C4. The extra mappings are applied in call order.  The value a key
    gets is that of the last mapping that binds it, whatever earlier
    mappings and the reserved fields held under that key; the line [Log]
    writes has a member with that key and that value; and when the keys
    of the mappings are UTF-8, no member of the line gives the key another
    value. *)
Theorem extras_apply_in_order os fuel logger msg level
    (pre post : list (gmap string string)) (x : gmap string string) (k v : string) w :
  lock logger = false -> (2 <= fuel)%nat ->
  x !! k = Some v -> (forall y, y ∈ post -> y !! k = None) ->
  let extras := (pre ++ x :: post)%list in
  exists j ms,
    entryOf os logger msg level extras w !! k = Some (AString v)
    /\ (exists logger',
         stateOf (Log os fuel logger msg level extras w) =
         Some (logger', WriteString (writer logger) (j +:+ chr newline) :: w))
    /\ parseObject j = Some ms
    /\ (Utf8.coerce k, VString (Utf8.coerce v)) ∈ ms
    /\ ((forall y k', y ∈ extras -> is_Some (y !! k') -> Utf8.coerce k' = k') ->
        forall val, (Utf8.coerce k, val) ∈ ms -> val = VString (Utf8.coerce v)).
Proof.
  intros Hfree Hfuel Hx Hpost extras.
  destruct (lineOf_members os logger msg level extras w) as (j & ms & Hj & Hline & Hnl & Hp & Hms).
  assert (Hk : entryOf os logger msg level extras w !! k = Some (AString v)).
  { by apply addExtras_lookup_last. }
  exists j, ms. repeat split; try done.
  - rewrite <- Hline. by apply Log_writes.
  - apply sortedPairs_elem in Hk.
    destruct (membersOf_elem _ _ _ _ Hms Hk) as (val & Hval & Hin).
    by injection Hval as <-.
  - intros Hvalid val Hin.
    destruct (membersOf_source _ _ _ Hms Hin) as (k' & v' & Hin' & Hm).
    apply sortedPairs_elem in Hin'.
    assert (Hk' : Utf8.coerce k' = k').
    { destruct (addExtras_keys _ _ k' (mk_is_Some _ _ Hin')) as [Hr|(y & Hy & Hyk)].
      - by apply coerce_reserved, (newEntry_keys logger msg level (time_Now os w)).
      - by apply (Hvalid y). }
    unfold memberOf in Hm. simpl in Hm.
    destruct (valueOf v') as [val'|] eqn:Hv'; [|discriminate].
    injection Hm as Hkk <-.
    assert (Hkvalid : Utf8.coerce k = k).
    { apply (Hvalid x); [|by rewrite Hx]. apply elem_of_app. right. by left. }
    assert (k' = k) as -> by congruence.
    rewrite Hk in Hin'. injection Hin' as <-. by injection Hv' as <-.
Qed.

Lemma extras_apply_in_order_witness :
  exists j ms,
    entryOf healthy fileLogger "m" InfoLevel
      ([kFirst] ++ kSecond :: [zZero])%list []
      !! "msg" = Some (AString "n")
    /\ (exists logger',
         stateOf (Log healthy 2 fileLogger "m" InfoLevel
           ([kFirst] ++ kSecond :: [zZero])%list []) =
         Some (logger', [WriteString (FileWriter (Opened "app.log")) (j +:+ chr newline)]))
    /\ parseObject j = Some ms
    /\ (Utf8.coerce "msg", VString (Utf8.coerce "n")) ∈ ms
    /\ ((forall y k',
          y ∈ ([kFirst] ++ kSecond :: [zZero])%list ->
          is_Some (y !! k') -> Utf8.coerce k' = k') ->
        forall val, (Utf8.coerce "msg", val) ∈ ms -> val = VString (Utf8.coerce "n")).
Proof.
  apply (extras_apply_in_order healthy 2 fileLogger "m" InfoLevel
           [kFirst] [zZero] kSecond "msg" "n" []);
    [reflexivity | lia | reflexivity |].
  intros y Hy. apply list_elem_of_singleton in Hy as ->. reflexivity.
Defined.

Lemma sortedPairs_newEntry (a1 a2 a3 a4 a5 a6 a7 : any) :
  sortedPairs
    (<["hostname" := a1]> (<["level" := a2]> (<["msg" := a3]> (<["name" := a4]>
      (<["pid" := a5]> (<["time" := a6]> (<["v" := a7]> (∅ : gmap string any)))))))) =
  [("hostname", a1); ("level", a2); ("msg", a3); ("name", a4);
   ("pid", a5); ("time", a6); ("v", a7)].
Proof. vm_compute. reflexivity. Qed.

(** The line of a record without extra fields, as the wire format has it. *)
Lemma Marshal_newEntry logger msg level now :
  Marshal (newEntry logger msg level now) =
  inl ("{" +:+ (memberText "hostname" (appendString (Hostname logger)) +:+ ","
       +:+ memberText "level" (formatInt level) +:+ ","
       +:+ memberText "msg" (appendString msg) +:+ ","
       +:+ memberText "name" (appendString (Name logger)) +:+ ","
       +:+ memberText "pid" (formatInt (Pid logger)) +:+ ","
       +:+ memberText "time" (appendString (bunyanTime now)) +:+ ","
       +:+ memberText "v" (formatInt BunyanSyntaxVersion)) +:+ "}").
Proof. unfold Marshal, newEntry. rewrite sortedPairs_newEntry. reflexivity. Qed.

(** What [Close] does to a logger whose writer is the one it was made
    with: it flushes exactly when the logger is buffered, closes the file
    exactly when it is not the console, and returns both errors as the
    calls gave them. *)
Lemma Close_spec os logger w :
  lock logger = false ->
  (isBuffered logger = true -> exists f n, writer logger = BufioWriter f n) ->
  let flush := if isBuffered logger then [Flush (writer logger)] else [] in
  let close := if decide (file logger = Stdout) then [] else [CloseFile (file logger)] in
  let flushErr := if isBuffered logger then respond os w (Flush (writer logger)) else None in
  let closeErr :=
    if decide (file logger = Stdout) then None
    else respond os (flush ++ w)%list (CloseFile (file logger)) in
  Close os logger w = Returned (flushErr, closeErr) (logger, (close ++ flush ++ w)%list).
Proof.
  intros Hfree Hwf. unfold Close. rewrite Hfree. cbv zeta.
  change (isBuffered (setLock true logger)) with (isBuffered logger).
  change (writer (setLock true logger)) with (writer logger).
  change (file (setLock true logger)) with (file logger).
  destruct (isBuffered logger).
  - destruct (Hwf eq_refl) as (f & n & ->). unfold perform.
    destruct (decide (file logger = Stdout)); by rewrite setLock_release.
  - unfold perform. destruct (decide (file logger = Stdout)); by rewrite setLock_release.
Qed.

(** After the fallback of [Log] the writer is the console while the logger
    still counts as buffered: [Close] panics. *)
Lemma Close_fallback_panics os logger w (f : File) :
  lock logger = false -> isBuffered logger = true -> writer logger = FileWriter f ->
  Close os logger w =
  Panicked "interface conversion: io.Writer is *os.File, not *bufio.Writer" (logger, w).
Proof.
  intros Hfree Hbuf Hw. unfold Close. rewrite Hfree. cbv zeta.
  change (isBuffered (setLock true logger)) with (isBuffered logger).
  change (writer (setLock true logger)) with (writer logger).
  by rewrite Hbuf, Hw, setLock_release.
Qed.

(** The two errors of [Close] do not mask each other. *)
Lemma Close_errors_independent :
  (exists s, Close healthy bufferedLogger [] = Returned (None, None) s)
  /\ (exists s, Close flushFails bufferedLogger [] = Returned (Some "short write", None) s)
  /\ (exists s,
        Close closeFails bufferedLogger [] = Returned (None, Some "file already closed") s).
Proof. repeat split; eexists; reflexivity. Qed.

Lemma Close_spec_witness :
  Close flushFails bufferedLogger [] =
  Returned (Some "short write", None)
    (bufferedLogger,
     [CloseFile (Opened "app.log"); Flush (BufioWriter (Opened "app.log") 16)]).
Proof.
  apply (Close_spec flushFails bufferedLogger []); [reflexivity|].
  intros _. by exists (Opened "app.log"), 16.
Defined.

(** The depth of the recursion of [Log]: with depth 2 or more the model
    says how the call ends, and says the same for every such depth. *)
Lemma Log_depth os fuel logger msg level extras w :
  (2 <= fuel)%nat ->
  Log os fuel logger msg level extras w = Log os 2 logger msg level extras w
  /\ Log os fuel logger msg level extras w <> OutOfFuel.
Proof. intros H. split; [by apply Log_fuel|by apply Log_decided]. Qed.

Lemma Log_depth_witness :
  Log diskFull 7 fileLogger "x" InfoLevel [] [] = Log diskFull 2 fileLogger "x" InfoLevel [] []
  /\ Log diskFull 7 fileLogger "x" InfoLevel [] [] <> OutOfFuel.
Proof. apply (Log_depth diskFull 7 fileLogger "x" InfoLevel [] []). lia. Defined.

(** C7, as the code has it.  A buffered logger with the threshold at fatal
    meets a failing write: [Log] replaces the writer by the console and
    returns the error.  [Close] then asserts that the writer is a
    [bufio.Writer] and panics: nothing is flushed, the file is not closed,
    and no pair of errors is returned. *)
Theorem Close_after_failed_write_panics :
  exists s,
    closeAfterFailedWrite =
    Some (Panicked "interface conversion: io.Writer is *os.File, not *bufio.Writer" s)
    /\ isBuffered s.1 = true
    /\ file s.1 = Opened "app.log"
    /\ Forall (fun c => c <> Flush (BufioWriter (Opened "app.log") 16)
                        /\ c <> CloseFile (Opened "app.log")) s.2.
Proof.
  eexists. split; [vm_compute; reflexivity|]. simpl.
  repeat split; repeat constructor; discriminate.
Qed.

(** C6: a counterexample to the threshold being the lowest level.  The
    threshold of a fresh logger is 0, not TraceLevel. *)
Lemma fresh_threshold_is_not_TraceLevel :
  exists logger,
    NewLogger healthy "svc" None [] = Returned (inl logger) []
    /\ LogLevel logger <> TraceLevel.
Proof. eexists. split; [reflexivity|]. simpl. discriminate. Qed.

(** C6, amended.  A logger fresh from [NewLogger] or [NewBufferedLogger]
    has the threshold 0, below each of the six levels, and its mutex is
    free; so none of the six operations is silenced: each writes its line.
    And [NewLogger("svc")] gives a console logger on which [Trace("hello")]
    writes a line that contains level 10, msg hello and name svc. *)
Theorem fresh_logger_suppresses_nothing os name args w logger w' (fuel : nat) :
  (NewLogger os name args w = Returned (inl logger) w'
   \/ exists bufSize, NewBufferedLogger os name bufSize args w = Returned (inl logger) w') ->
  (2 <= fuel)%nat ->
  LogLevel logger = 0
  /\ (forall s, LogLevel logger < levelOf s)
  /\ (forall s msg extras w2, exists j logger',
        Marshal (entryOf os logger msg (levelOf s) extras w2) = inl j
        /\ stateOf (leveled s os fuel logger msg extras w2) =
           Some (logger', WriteString (writer logger) (j +:+ chr newline) :: w2))
  /\ (exists svc,
        NewLogger os "svc" None w = Returned (inl svc) w
        /\ exists logger' line,
            stateOf (Trace os fuel svc "hello" [] w) =
            Some (logger', WriteString (FileWriter Stdout) line :: w)
            /\ contains line
                 (quoted "level" +:+ ":10," +:+ quoted "msg" +:+ ":" +:+ quoted "hello"
                  +:+ "," +:+ quoted "name" +:+ ":" +:+ quoted "svc")).
Proof.
  intros Hnew Hfuel.
  assert (Hl : LogLevel logger = 0 /\ lock logger = false).
  { destruct Hnew as [H|[n H]]; revert H; unfold NewLogger, NewBufferedLogger;
      destruct (parseArgs os args w) as [[f|e] w0| | |]; try discriminate;
      intros [= <- _]; by split. }
  destruct Hl as [Hlevel Hfree].
  split; [done|]. split; [intros s; rewrite Hlevel; by destruct s|]. split.
  - intros s msg extras w2.
    destruct (Marshal_entryOf os logger msg (levelOf s) extras w2) as [j Hj].
    destruct (leveled_spec s os fuel logger msg extras w2 Hfree Hfuel) as [Hge _].
    destruct Hge as [_ [logger' Hl']]; [rewrite Hlevel; by destruct s|].
    exists j, logger'. split; [done|].
    by rewrite <- (lineOf_Marshal _ _ _ _ _ _ _ Hj).
  - exists (newLogger os "svc" (FileWriter Stdout) Stdout). split; [reflexivity|].
    set (svc := newLogger os "svc" (FileWriter Stdout) Stdout).
    destruct (leveled_spec trace os fuel svc "hello" [] w eq_refl Hfuel) as [Hw _].
    destruct (Hw ltac:(by vm_compute)) as [_ [logger' Hl']]. simpl in Hl'.
    exists logger', (lineOf os svc "hello" TraceLevel [] w). split; [done|].
    unfold lineOf, entryOf, addExtras. simpl foldl. rewrite Marshal_newEntry.
    exists ("{" +:+ memberText "hostname" (appendString (Hostname svc)) +:+ ","),
           ("," +:+ memberText "pid" (formatInt (Pid svc)) +:+ ","
            +:+ memberText "time" (appendString (bunyanTime (time_Now os w))) +:+ ","
            +:+ memberText "v" (formatInt BunyanSyntaxVersion) +:+ "}" +:+ chr newline).
    rewrite !str_app_assoc. reflexivity.
Qed.

Lemma fresh_logger_suppresses_nothing_witness :
  LogLevel fileLogger = 0
  /\ exists logger' line,
       stateOf (Trace healthy 2 (newLogger healthy "svc" (FileWriter Stdout) Stdout)
                  "hello" [] []) =
       Some (logger', [WriteString (FileWriter Stdout) line])
       /\ contains line
            (quoted "level" +:+ ":10," +:+ quoted "msg" +:+ ":" +:+ quoted "hello"
             +:+ "," +:+ quoted "name" +:+ ":" +:+ quoted "svc").
Proof.
  destruct (fresh_logger_suppresses_nothing healthy "svc" (Some ["app.log"]) []
              fileLogger [OpenFile "app.log"] 2) as (H0 & _ & _ & svc & Hsvc & H).
  - left. reflexivity.
  - lia.
  - split; [exact H0|]. injection Hsvc as <-. exact H.
Defined.

(** *** Sequences of calls *)

(** What a call of [Log] leaves of the logger, however it ends. *)
Lemma Log_sameButWriter os fuel logger msg level extras w logger' w' :
  stateOf (Log os fuel logger msg level extras w) = Some (logger', w') ->
  sameButWriter logger logger'.
Proof.
  destruct fuel as [|fuel]; [discriminate|].
  rewrite Log_unfold. destruct (lock logger) eqn:Hl.
  { intros [= <- _]. unfold sameButWriter. tauto. }
  cbv zeta.
  destruct (Marshal_entryOf os (setLock true logger) msg level extras w) as [j ->].
  unfold perform. destruct (respond os w _) as [err|].
  - unfold Error.
    destruct (ErrorLevel >=? _)%Z.
    + destruct fuel as [|fuel]; [discriminate|].
      rewrite Log_locked by reflexivity.
      intros [= <- _]. unfold sameButWriter. simpl. tauto.
    + intros [= <- _]. unfold sameButWriter. simpl. tauto.
  - intros [= <- _]. unfold sameButWriter. simpl. tauto.
Qed.

(** [Close] on an intact logger returns, and leaves the logger as it was. *)
Lemma Close_intact os logger w :
  lock logger = false -> intact logger ->
  Close os logger w =
  Returned
    (if isBuffered logger then respond os w (Flush (writer logger)) else None,
     if decide (file logger = Stdout) then None
     else respond os (flushOf logger ++ w)%list (CloseFile (file logger)))
    (logger, (closeOf logger ++ flushOf logger ++ w)%list).
Proof.
  intros Hfree Hin. unfold Close, flushOf, closeOf. rewrite Hfree. cbv zeta.
  change (isBuffered (setLock true logger)) with (isBuffered logger).
  change (writer (setLock true logger)) with (writer logger).
  change (file (setLock true logger)) with (file logger).
  unfold intact in Hin. destruct (writer logger) as [f|f n]; destruct Hin as [_ ->];
    unfold perform; destruct (decide (file logger = Stdout)); by rewrite setLock_release.
Qed.

(** The constructors return intact loggers with the mutex free. *)
Lemma constructed_intact os name args w logger w' :
  (NewLogger os name args w = Returned (inl logger) w'
   \/ exists bufSize, NewBufferedLogger os name bufSize args w = Returned (inl logger) w') ->
  intact logger /\ lock logger = false /\ (args = None -> file logger = Stdout).
Proof.
  intros [H|[n H]]; revert H; unfold NewLogger, NewBufferedLogger;
    destruct (parseArgs os args w) as [[f|e] w0| | |] eqn:Hp; try discriminate;
    intros [= <- _]; (split; [by split|]); (split; [done|]);
    intros ->; by injection Hp as <- _.
Qed.

Lemma intact_SetLogLevel logger level : intact logger -> intact (SetLogLevel logger level).
Proof.
  unfold SetLogLevel. by repeat (destruct (decide _) as [_|_]; [done|]).
Qed.

Lemma SetLogLevel_fields logger level :
  lock (SetLogLevel logger level) = lock logger
  /\ writer (SetLogLevel logger level) = writer logger
  /\ file (SetLogLevel logger level) = file logger
  /\ isBuffered (SetLogLevel logger level) = isBuffered logger.
Proof.
  unfold SetLogLevel. by repeat (destruct (decide _) as [_|_]; [done|]).
Qed.

(** A leveled operation is silent exactly below the threshold. *)
Lemma leveled_silent_iff (s : Severity) os fuel logger msg extras w :
  lock logger = false -> (2 <= fuel)%nat ->
  leveled s os fuel logger msg extras w = Returned None (logger, w)
  <-> levelOf s < LogLevel logger.
Proof.
  intros Hfree Hfuel.
  destruct (leveled_spec s os fuel logger msg extras w Hfree Hfuel) as [Hge Hlt].
  split; [|exact Hlt]. intros Hs.
  destruct (Z.le_gt_cases (LogLevel logger) (levelOf s)) as [H|H]; [|lia].
  destruct (Hge H) as [_ [logger' Hw]]. rewrite Hs in Hw. simpl in Hw.
  injection Hw as _ Hw. apply (f_equal length) in Hw. simpl in Hw. lia.
Qed.

(** X4. Whatever the outcome of [Log] or of a leveled operation (returned,
    blocked on the mutex), the logger it leaves has the name, host name,
    process id, threshold, file and buffering flag it had: only the mutex
    and the writer may differ, and the writer is the old one or the
    console.  A logger that writes to the console keeps doing so. *)
Theorem Log_changes_only_the_writer os fuel logger msg level extras w logger' w' :
  stateOf (Log os fuel logger msg level extras w) = Some (logger', w')
  \/ (exists s, level = levelOf s
        /\ stateOf (leveled s os fuel logger msg extras w) = Some (logger', w')) ->
  sameButWriter logger logger'
  /\ (writer logger = FileWriter Stdout -> writer logger' = FileWriter Stdout).
Proof.
  intros H.
  assert (Hs : sameButWriter logger logger').
  { destruct H as [H|(s & -> & H)]; [by apply Log_sameButWriter in H|].
    rewrite leveled_unfold in H. destruct (levelOf s >=? LogLevel logger)%Z.
    - by apply Log_sameButWriter in H.
    - injection H as <- _. unfold sameButWriter. tauto. }
  split; [done|]. intros Hc. destruct Hs as (_ & _ & _ & _ & _ & _ & [Hw|Hw]); congruence.
Qed.

Lemma Log_changes_only_the_writer_witness :
  sameButWriter fileLogger (setWriter (FileWriter Stdout) (setLock true fileLogger))
  /\ (writer fileLogger = FileWriter Stdout ->
      writer (setWriter (FileWriter Stdout) (setLock true fileLogger)) = FileWriter Stdout).
Proof.
  apply (Log_changes_only_the_writer diskFull 2 fileLogger "hello" InfoLevel [] []
           (setWriter (FileWriter Stdout) (setLock true fileLogger))
           [WriteString (FileWriter (Opened "app.log")) (helloLine +:+ chr newline)]).
  left. vm_compute. reflexivity.
Defined.

(** X5. When [Log] returns an error, the threshold is above the error
    level (otherwise the call is blocked), the logger it leaves is the old
    one with the console for its writer and the mutex free, and every later
    call of [Log] on it writes its line to the console and leaves the
    writer on the console: the file is never written to again. *)
Theorem console_fallback_persists os fuel logger msg level extras w err logger' w' :
  lock logger = false -> (2 <= fuel)%nat ->
  Log os fuel logger msg level extras w = Returned (Some err) (logger', w') ->
  ErrorLevel < LogLevel logger
  /\ logger' = setWriter (FileWriter Stdout) logger
  /\ lock logger' = false
  /\ forall msg2 level2 extras2 w2, exists j logger2,
       Marshal (entryOf os logger' msg2 level2 extras2 w2) = inl j
       /\ stateOf (Log os fuel logger' msg2 level2 extras2 w2) =
          Some (logger2, WriteString (FileWriter Stdout) (j +:+ chr newline) :: w2)
       /\ writer logger2 = FileWriter Stdout.
Proof.
  intros Hfree Hfuel. rewrite (Log_fuel _ _ _ _ _ _ _ Hfuel), Log_spec by done.
  cbv zeta. destruct (respond os w _) as [e|]; [|discriminate].
  destruct (Z.geb_spec ErrorLevel (LogLevel logger)) as [Hge|Hlt]; [discriminate|].
  intros [= _ <- _]. split; [lia|]. split; [done|]. split; [done|].
  intros msg2 level2 extras2 w2.
  set (l1 := setWriter (FileWriter Stdout) logger).
  assert (Hfree1 : lock l1 = false) by done.
  destruct (Marshal_entryOf os l1 msg2 level2 extras2 w2) as [j Hj].
  destruct (Log_writes os fuel l1 msg2 level2 extras2 w2 Hfree1 Hfuel) as [l2 Hl2].
  exists j, l2. split; [done|].
  rewrite (lineOf_Marshal _ _ _ _ _ _ _ Hj) in Hl2. split; [done|].
  apply Log_sameButWriter in Hl2.
  destruct Hl2 as (_ & _ & _ & _ & _ & _ & [Hw|Hw]); by rewrite Hw.
Qed.

Lemma console_fallback_persists_witness :
  ErrorLevel < LogLevel quietLogger
  /\ setWriter (FileWriter Stdout) quietLogger = setWriter (FileWriter Stdout) quietLogger
  /\ lock (setWriter (FileWriter Stdout) quietLogger) = false
  /\ forall msg2 level2 extras2 w2, exists j logger2,
       Marshal (entryOf diskFull (setWriter (FileWriter Stdout) quietLogger)
                  msg2 level2 extras2 w2) = inl j
       /\ stateOf (Log diskFull 2 (setWriter (FileWriter Stdout) quietLogger)
                     msg2 level2 extras2 w2) =
          Some (logger2, WriteString (FileWriter Stdout) (j +:+ chr newline) :: w2)
       /\ writer logger2 = FileWriter Stdout.
Proof.
  apply (console_fallback_persists diskFull 2 quietLogger "hello" InfoLevel [] []
           "disk full" (setWriter (FileWriter Stdout) quietLogger)
           [WriteString (FileWriter (Opened "app.log")) (helloLine +:+ chr newline)]);
    [reflexivity | lia | vm_compute; reflexivity].
Defined.

(** X6. Two calls of [Log] made one after the other on writes that
    succeed: each returns no error, the logger is as it was (the mutex is
    free again for the second call), and the world holds the two lines in
    the order of the calls. *)
Theorem Log_twice_in_order os fuel logger msg1 level1 extras1 msg2 level2 extras2 w :
  lock logger = false -> (2 <= fuel)%nat ->
  let c1 := WriteString (writer logger) (lineOf os logger msg1 level1 extras1 w) in
  let c2 := WriteString (writer logger) (lineOf os logger msg2 level2 extras2 (c1 :: w)) in
  respond os w c1 = None -> respond os (c1 :: w) c2 = None ->
  Log os fuel logger msg1 level1 extras1 w = Returned None (logger, c1 :: w)
  /\ Log os fuel logger msg2 level2 extras2 (c1 :: w) = Returned None (logger, c2 :: c1 :: w).
Proof.
  intros Hfree Hfuel c1 c2 H1 H2.
  rewrite !(Log_fuel _ fuel) by done. rewrite !Log_spec by done. cbv zeta.
  fold c1. rewrite H1. fold c2. by rewrite H2.
Qed.

Lemma Log_twice_in_order_witness :
  Log healthy 2 fileLogger "hello" InfoLevel [] [] =
    Returned None
      (fileLogger, [WriteString (FileWriter (Opened "app.log")) (helloLine +:+ chr newline)])
  /\ Log healthy 2 fileLogger "started" InfoLevel [userAnn]
       [WriteString (FileWriter (Opened "app.log")) (helloLine +:+ chr newline)] =
     Returned None
       (fileLogger,
        [WriteString (FileWriter (Opened "app.log")) (startedLine +:+ chr newline);
         WriteString (FileWriter (Opened "app.log")) (helloLine +:+ chr newline)]).
Proof.
  apply (Log_twice_in_order healthy 2 fileLogger "hello" InfoLevel [] "started" InfoLevel
           [userAnn] []); [reflexivity | lia | reflexivity | reflexivity].
Defined.

(** X7. A logger as [NewLogger] or [NewBufferedLogger] returns it, with
    the threshold set to any name or left alone, can be closed: [Close]
    neither panics nor blocks, flushes exactly when the logger is buffered,
    closes the file exactly when it is not the console, and returns the
    error of each call.  A logger made without a path has the console for
    its file, which [Close] leaves open. *)
Theorem constructed_logger_closes os name args w logger w' (level : string) (w2 : World) :
  (NewLogger os name args w = Returned (inl logger) w'
   \/ exists bufSize, NewBufferedLogger os name bufSize args w = Returned (inl logger) w') ->
  let closes (l : Logger) :=
    Close os l w2 =
    Returned
      (if isBuffered logger then respond os w2 (Flush (writer logger)) else None,
       if decide (file logger = Stdout) then None
       else respond os (flushOf logger ++ w2)%list (CloseFile (file logger)))
      (l, (closeOf logger ++ flushOf logger ++ w2)%list) in
  closes logger /\ closes (SetLogLevel logger level)
  /\ (args = None -> closeOf logger = []).
Proof.
  intros Hnew closes. destruct (constructed_intact _ _ _ _ _ _ Hnew) as (Hin & Hfree & Hnone).
  split; [by apply Close_intact|]. split.
  - unfold closes. destruct (SetLogLevel_fields logger level) as (Hl & Hw & Hf & Hb).
    rewrite Close_intact; [|congruence|by apply intact_SetLogLevel].
    unfold flushOf, closeOf. by rewrite Hw, Hf, Hb.
  - intros Ha. unfold closeOf. by rewrite (Hnone Ha).
Qed.

Lemma constructed_logger_closes_witness :
  Close closeFails bufferedLogger [] =
    Returned
      (None, Some "file already closed")
      (bufferedLogger,
       [CloseFile (Opened "app.log"); Flush (BufioWriter (Opened "app.log") 16)])
  /\ Close closeFails (SetLogLevel bufferedLogger "warn") [] =
    Returned
      (None, Some "file already closed")
      (SetLogLevel bufferedLogger "warn",
       [CloseFile (Opened "app.log"); Flush (BufioWriter (Opened "app.log") 16)]).
Proof.
  destruct (constructed_logger_closes closeFails "svc" (Some ["app.log"]) [] bufferedLogger
              [OpenFile "app.log"] "warn" []) as (H1 & H2 & _).
  - right. exists 16. reflexivity.
  - split; [exact H1 | exact H2].
Defined.

(** X8. [Close] records nothing in the logger: after it the logger is as
    it was, so a later [Log] still writes its line to the writer of the
    closed file, and a second [Close] flushes and closes once more. *)
Theorem Log_after_Close os fuel logger w msg level extras :
  lock logger = false -> intact logger -> (2 <= fuel)%nat ->
  let w1 := (closeOf logger ++ flushOf logger ++ w)%list in
  (exists errs, Close os logger w = Returned errs (logger, w1))
  /\ (exists j logger',
        Marshal (entryOf os logger msg level extras w1) = inl j
        /\ stateOf (Log os fuel logger msg level extras w1) =
           Some (logger', WriteString (writer logger) (j +:+ chr newline) :: w1))
  /\ (exists errs,
        Close os logger w1 =
        Returned errs (logger, (closeOf logger ++ flushOf logger ++ w1)%list)).
Proof.
  intros Hfree Hin Hfuel w1. split; [|split].
  - eexists. by apply Close_intact.
  - destruct (Marshal_entryOf os logger msg level extras w1) as [j Hj].
    destruct (Log_writes os fuel logger msg level extras w1 Hfree Hfuel) as [l' Hl'].
    exists j, l'. split; [done|]. by rewrite <- (lineOf_Marshal _ _ _ _ _ _ _ Hj).
  - eexists. by apply Close_intact.
Qed.

Lemma Log_after_Close_witness :
  (exists errs,
     Close healthy fileLogger [] = Returned errs (fileLogger, [CloseFile (Opened "app.log")]))
  /\ (exists j logger',
        Marshal (entryOf healthy fileLogger "hello" InfoLevel []
                   [CloseFile (Opened "app.log")]) = inl j
        /\ stateOf (Log healthy 2 fileLogger "hello" InfoLevel []
                      [CloseFile (Opened "app.log")]) =
           Some (logger',
                 [WriteString (FileWriter (Opened "app.log")) (j +:+ chr newline);
                  CloseFile (Opened "app.log")]))
  /\ (exists errs,
        Close healthy fileLogger [CloseFile (Opened "app.log")] =
        Returned errs
          (fileLogger, [CloseFile (Opened "app.log"); CloseFile (Opened "app.log")])).
Proof.
  apply (Log_after_Close healthy 2 fileLogger [] "hello" InfoLevel []);
    [reflexivity | by split | lia].
Defined.

(** X9. The threshold by name: after [SetLogLevel] with fatal, error,
    warn, info or debug, the operations that return without writing are
    exactly those below that level, and the others call [Log]; after any
    other name no operation is silent. *)
Theorem SetLogLevel_silences (s : Severity) (level : string) os fuel logger msg extras w :
  lock logger = false -> (2 <= fuel)%nat ->
  let silent (name : string) :=
    leveled s os fuel (SetLogLevel logger name) msg extras w
    = Returned None (SetLogLevel logger name, w) in
  (silent "fatal" <-> s ∈ [trace; debug; info; warn; error_])
  /\ (silent "error" <-> s ∈ [trace; debug; info; warn])
  /\ (silent "warn" <-> s ∈ [trace; debug; info])
  /\ (silent "info" <-> s ∈ [trace; debug])
  /\ (silent "debug" <-> s ∈ [trace])
  /\ (level ∉ ["fatal"; "error"; "warn"; "info"; "debug"] -> ~ silent level)
  /\ (~ silent level ->
      leveled s os fuel (SetLogLevel logger level) msg extras w
      = Log os fuel (SetLogLevel logger level) msg (levelOf s) extras w).
Proof.
  intros Hfree Hfuel silent.
  assert (Hl : forall name, lock (SetLogLevel logger name) = false).
  { intros name. destruct (SetLogLevel_fields logger name) as (-> & _). done. }
  assert (Hs : forall name, silent name <-> levelOf s < LogLevel (SetLogLevel logger name)).
  { intros name. unfold silent. by apply leveled_silent_iff. }
  assert (Hin : forall (l : list Severity), s ∈ l <-> In s l).
  { intros l. apply list_elem_of_In. }
  repeat split.
  1-10: try (rewrite Hs, Hin; change (LogLevel (SetLogLevel logger _)) with 60
                || change (LogLevel (SetLogLevel logger _)) with 50
                || change (LogLevel (SetLogLevel logger _)) with 40
                || change (LogLevel (SetLogLevel logger _)) with 30
                || change (LogLevel (SetLogLevel logger _)) with 20;
             destruct s; simpl; unfold TraceLevel, DebugLevel, InfoLevel, WarnLevel,
               ErrorLevel, FatalLevel; intuition (try lia; try discriminate)).
  - intros Hother. rewrite Hs.
    assert (SetLogLevel logger level = setLogLevel TraceLevel logger) as ->.
    { unfold SetLogLevel.
      repeat (destruct (decide _) as [->|_]; [exfalso; apply Hother; repeat constructor|]).
      reflexivity. }
    destruct s; vm_compute; discriminate.
  - intros Hn. rewrite Hs in Hn.
    apply leveled_spec; [apply Hl | done | lia].
Qed.

Lemma SetLogLevel_silences_witness :
  (leveled info healthy 2 (SetLogLevel fileLogger "warn") "x" [] []
   = Returned None (SetLogLevel fileLogger "warn", [])
   <-> info ∈ [trace; debug; info])
  /\ (leveled info healthy 2 (SetLogLevel fileLogger "info") "x" [] []
      = Returned None (SetLogLevel fileLogger "info", [])
      <-> info ∈ [trace; debug]).
Proof.
  destruct (SetLogLevel_silences info "" healthy 2 fileLogger "x" [] [])
    as (_ & _ & H1 & H2 & _); [reflexivity | lia |].
  split; [exact H1 | exact H2].
Defined.

(** *** The time and the path *)

(** X10. The time of a record, for a clock text that starts with a date
    of ten bytes and a space: the date, [T], the twelve bytes that follow
    the space, and [Z]: 24 bytes.  Only that first space is replaced: a
    space among the twelve bytes (the clock prints no fraction at a whole
    second) stays in the time. *)
Theorem bunyanTime_shape (now : TimeText) (date rest : string) :
  text now = date +:+ " " +:+ rest ->
  String.length date = 10%nat ->
  occurs " " date = false ->
  bunyanTime now = date +:+ "T" +:+ substring 0 12 rest +:+ "Z"
  /\ String.length (bunyanTime now) = 24%nat
  /\ occurs " " (bunyanTime now) = occurs " " (substring 0 12 rest).
Proof.
  intros Htext Hlen Hocc.
  assert (Hrest : (12 <= String.length rest)%nat).
  { pose proof (text_long now) as Hl. apply Nat.leb_le in Hl.
    rewrite Htext, !str_length_app in Hl. simpl in Hl. lia. }
  assert (Heq : bunyanTime now = date +:+ "T" +:+ substring 0 12 rest +:+ "Z").
  { unfold bunyanTime. rewrite Htext.
    replace 23%nat with (String.length date + 13)%nat by lia.
    rewrite GoStringsFacts.substring_app.
    change (substring 0 13 (" " +:+ rest)) with (String " " (substring 0 12 rest)).
    rewrite (GoStringsFacts.Replace_first " " "T" date _ Hocc).
    by rewrite str_app_assoc. }
  split; [exact Heq|]. rewrite Heq. split.
  - rewrite !str_length_app, GoStringsFacts.substring_length by done. simpl. lia.
  - rewrite !occurs_app, Hocc. simpl. by rewrite orb_false_r.
Qed.

Lemma bunyanTime_shape_witness :
  bunyanTime clockWhole = "2024-01-01" +:+ "T" +:+ substring 0 12 "00:00:00 +0000 UTC" +:+ "Z"
  /\ String.length (bunyanTime clockWhole) = 24%nat
  /\ occurs " " (bunyanTime clockWhole) = occurs " " (substring 0 12 "00:00:00 +0000 UTC").
Proof.
  apply (bunyanTime_shape clockWhole "2024-01-01" "00:00:00 +0000 UTC"); reflexivity.
Defined.

(** X11. [parseArgs] with an argument.  The path it works with is the
    first argument, trimmed, with every backslash turned into a slash: it
    holds no backslash, and it is the trimmed argument when that has none.
    Without a slash in the path the one call is the opening of the file,
    and the result is the opened file or the error of that call.  With a
    slash, the path is a directory, a slash and a last part without
    slash; the directory is made first; if that fails its error is the
    result and the file is not opened; otherwise the file is opened, with
    the same result as before. *)
Theorem parseArgs_path os (arg : string) (rest : list string) w :
  let path := Replace (TrimSpace arg) (chr backslash) "/" (-1) in
  let open w :=
    match respond os w (OpenFile path) with
    | Some err => Returned (inr err) (OpenFile path :: w)
    | None => Returned (inl (Opened path)) (OpenFile path :: w)
    end in
  occurs backslash path = false
  /\ (occurs backslash (TrimSpace arg) = false -> path = TrimSpace arg)
  /\ (occurs "/" path = false -> parseArgs os (Some (arg :: rest)) w = open w)
  /\ (occurs "/" path = true ->
      exists dir base,
        path = dir +:+ "/" +:+ base /\ occurs "/" base = false
        /\ parseArgs os (Some (arg :: rest)) w =
           match respond os w (MkdirAll dir) with
           | Some err => Returned (inr err) (MkdirAll dir :: w)
           | None => open (MkdirAll dir :: w)
           end).
Proof.
  intros path open. split; [|split; [|split]].
  - unfold path, Replace, chr. apply (GoStringsFacts.replaceFrom_all backslash "/"); [done|lia|lia].
  - intros H. unfold path, Replace, chr. by apply (GoStringsFacts.replaceFrom_none backslash "/").
  - intros Hno. unfold parseArgs. fold path. unfold ContainsByte. rewrite Hno.
    unfold perform, open. by destruct (respond os w (OpenFile path)).
  - intros Hyes. destruct (GoStringsFacts.LastIndexByte_split path "/" Hyes) as [Hsplit Hbase].
    set (i := Z.to_nat (LastIndexByte path "/")) in *.
    exists (substring 0 i path), (drop (S i) path).
    split; [exact Hsplit|]. split; [exact Hbase|].
    unfold parseArgs. fold path. unfold ContainsByte. rewrite Hyes. fold i.
    unfold perform, open. destruct (respond os w (MkdirAll _)); [reflexivity|].
    by destruct (respond os _ (OpenFile path)).
Qed.

(** *** The two constructors, and the record read back *)

(** X17. [NewBufferedLogger] makes the system calls of [NewLogger] and
    ends as it does: with the same error, with the same panic (an argument
    slice that is empty but not nil is indexed at 0), or with the logger
    [NewLogger] returns but for the buffered writer around the same file
    and the buffering flag.  Neither of them ever blocks. *)
Theorem NewBufferedLogger_as_NewLogger os name bufSize args w :
  match NewLogger os name args w with
  | Returned (inl l) w' =>
    NewBufferedLogger os name bufSize args w =
    Returned (inl (setBuffered true (setWriter (BufioWriter (file l) bufSize) l))) w'
    /\ writer l = FileWriter (file l) /\ isBuffered l = false
  | Returned (inr e) w' => NewBufferedLogger os name bufSize args w = Returned (inr e) w'
  | Panicked reason w' =>
    NewBufferedLogger os name bufSize args w = Panicked reason w' /\ args = Some []
  | Blocked _ | OutOfFuel => False
  end
  /\ NewLogger os name (Some []) w = Panicked "index out of range [0] with length 0" w.
Proof.
  split; [|reflexivity]. unfold NewLogger, NewBufferedLogger, parseArgs, perform.
  destruct args as [[|arg rest]|]; [done| |done].
  destruct (ContainsByte _ _).
  - destruct (respond os w _); [done|]. by destruct (respond os _ _).
  - by destruct (respond os w _).
Qed.

(** X18. The record read back.  When no extra mapping binds a reserved
    name, the line [Log] writes parses to members among which the seven
    reserved fields have the values of the call: the host name, the level
    given, the message, the name of the logger, the process id, the time of
    the clock and the version 0 (strings as the encoder writes them: bytes
    that are not UTF-8 replaced by U+FFFD). *)
Theorem Log_record_fields os fuel logger msg level extras w :
  lock logger = false -> (2 <= fuel)%nat ->
  (forall x r, x ∈ extras -> r ∈ reserved -> x !! r = None) ->
  exists j ms logger',
    stateOf (Log os fuel logger msg level extras w) =
    Some (logger', WriteString (writer logger) (j +:+ chr newline) :: w)
    /\ parseObject j = Some ms
    /\ ("hostname", VString (Utf8.coerce (Hostname logger))) ∈ ms
    /\ ("level", VNumber level) ∈ ms
    /\ ("msg", VString (Utf8.coerce msg)) ∈ ms
    /\ ("name", VString (Utf8.coerce (Name logger))) ∈ ms
    /\ ("pid", VNumber (Pid logger)) ∈ ms
    /\ ("time", VString (Utf8.coerce (bunyanTime (time_Now os w)))) ∈ ms
    /\ ("v", VNumber BunyanSyntaxVersion) ∈ ms.
Proof.
  intros Hfree Hfuel Hres.
  destruct (lineOf_members os logger msg level extras w)
    as (j & ms & Hj & Hline & Hnl & Hp & Hms).
  destruct (Log_writes os fuel logger msg level extras w Hfree Hfuel) as [logger' Hl'].
  rewrite Hline in Hl'. exists j, ms, logger'. split; [done|]. split; [done|].
  assert (Hfield : forall r v x,
            r ∈ reserved ->
            newEntry logger msg level (time_Now os w) !! r = Some v ->
            valueOf v = Some x -> (r, x) ∈ ms).
  { intros r v x Hr Hv Hx.
    assert (Hin : entryOf os logger msg level extras w !! r = Some v).
    { unfold entryOf. rewrite addExtras_lookup_None; [done|]. intros y Hy. by apply Hres. }
    apply sortedPairs_elem in Hin.
    destruct (membersOf_elem _ _ _ _ Hms Hin) as (x' & Hx' & Hm).
    rewrite (coerce_reserved r Hr) in Hm. congruence. }
  repeat split; (eapply Hfield; [|reflexivity|reflexivity]);
    unfold reserved; rewrite !elem_of_cons; tauto.
Qed.

Lemma Log_record_fields_witness :
  exists j ms logger',
    stateOf (Log healthy 2 fileLogger "started" InfoLevel [userAnn] []) =
    Some (logger', [WriteString (FileWriter (Opened "app.log")) (j +:+ chr newline)])
    /\ parseObject j = Some ms
    /\ ("hostname", VString (Utf8.coerce "host1")) ∈ ms
    /\ ("level", VNumber InfoLevel) ∈ ms
    /\ ("msg", VString (Utf8.coerce "started")) ∈ ms
    /\ ("name", VString (Utf8.coerce (Name fileLogger))) ∈ ms
    /\ ("pid", VNumber 1234) ∈ ms
    /\ ("time", VString (Utf8.coerce (bunyanTime clock0))) ∈ ms
    /\ ("v", VNumber BunyanSyntaxVersion) ∈ ms.
Proof.
  apply (Log_record_fields healthy 2 fileLogger "started" InfoLevel [userAnn] []);
    [reflexivity | lia |].
  intros x r Hx Hr. apply list_elem_of_singleton in Hx as ->.
  unfold reserved in Hr. rewrite !elem_of_cons, elem_of_nil in Hr.
  destruct Hr as [->|[->|[->|[->|[->|[->|[->|[]]]]]]]]; reflexivity.
Defined.

(** X19. Where the package panics.  [Log] and the six leveled operations
    never do, whatever the logger and the system.  [Close] does in one
    state only: the mutex is free and the logger is buffered while its
    writer is a file, the state the console fallback of [Log] leaves a
    buffered logger in; it then gives the mutex back and makes no system
    call. *)
Theorem panics_only_in_Close os fuel logger msg level extras w (reason : string) (st : State) :
  Log os fuel logger msg level extras w <> Panicked reason st
  /\ (forall s, leveled s os fuel logger msg extras w <> Panicked reason st)
  /\ (Close os logger w = Panicked reason st <->
      lock logger = false /\ isBuffered logger = true
      /\ (exists f, writer logger = FileWriter f)
      /\ reason = "interface conversion: io.Writer is *os.File, not *bufio.Writer"
      /\ st = (logger, w)).
Proof.
  assert (HLog : forall lv, Log os fuel logger msg lv extras w <> Panicked reason st).
  { intros lv. destruct fuel as [|fuel]; [discriminate|].
    rewrite Log_unfold. destruct (lock logger); [discriminate|]. cbv zeta.
    destruct (Marshal_entryOf os (setLock true logger) msg lv extras w) as [j ->].
    unfold perform. destruct (respond os w _) as [err|]; [|discriminate].
    unfold Error. destruct (ErrorLevel >=? _)%Z; [|discriminate].
    destruct fuel as [|fuel]; [discriminate|]. by rewrite Log_locked. }
  split; [apply HLog|]. split.
  - intros s. rewrite leveled_unfold. destruct (levelOf s >=? LogLevel logger)%Z;
      [apply HLog|discriminate].
  - split.
    + unfold Close. destruct (lock logger) eqn:Hl; [discriminate|]. cbv zeta.
      change (isBuffered (setLock true logger)) with (isBuffered logger).
      change (writer (setLock true logger)) with (writer logger).
      change (file (setLock true logger)) with (file logger).
      destruct (isBuffered logger) eqn:Hb.
      * destruct (writer logger) as [f|f n] eqn:Hw.
        -- rewrite setLock_release by done. intros [= <- <-]. eauto 10.
        -- unfold perform. by destruct (decide (file logger = Stdout)).
      * unfold perform. by destruct (decide (file logger = Stdout)).
    + intros (Hl & Hb & [f Hw] & -> & ->). by apply (Close_fallback_panics _ _ _ f).
Qed.

End LoggerFacts.

(** ** The metrics wrappers *)

Module MetricsFacts.
Import Json Go metrics.

(** *** The claim about the metrics package *)

(** C8: a counterexample to a handle being returned whenever name and help
    are given.  The second registration of the same counter panics. *)
Lemma CreateCounter_twice_panics :
  exists c reg,
    CreateCounter strict "requests" "" "" "requests served" ∅ [] = Returned (Some c, None) reg
    /\ CreateCounter strict "requests" "" "" "requests served" ∅ reg =
       Panicked "duplicate metrics collector registration attempted" reg.
Proof. eexists _, _. split; vm_compute; reflexivity. Qed.

(** C8, amended.  Each of the six registration operations returns no
    handle and its validation error, and leaves the registry alone, when
    name or help is empty.  When both are given it builds the handle from
    its arguments and registers it: if the registry accepts, the handle is
    returned with no error and is in the registry; if the registry refuses
    (or [NewHistogram] panics on the options), the call panics. *)
Theorem Create_validates_then_registers (p : Prometheus)
    (name namespace subsystem help : string) (labels : gmap string string)
    (labelNames : list string) (buckets : list (list float)) (reg : Registry) :
  let o := {| Name := name; Help := help; Namespace := namespace;
              Subsystem := subsystem; ConstLabels := labels |} in
  let h := {| opts := o; Buckets := useBuckets buckets |} in
  let registered c :=
    match register p reg c with
    | Some reason => Panicked reason reg
    | None => Returned (Some c, None) (c :: reg)
    end in
  ((name = "" \/ help = "") ->
     CreateCounter p name namespace subsystem help labels reg
       = Returned (None, Some (missing "counter")) reg
     /\ CreateGauge p name namespace subsystem help labels reg
       = Returned (None, Some (missing "gauge")) reg
     /\ CreateHistogram p name namespace subsystem help labels buckets reg
       = Returned (None, Some (missing "histogram")) reg
     /\ CreateCounterVector p name namespace subsystem help labels labelNames reg
       = Returned (None, Some (missing "counter vector")) reg
     /\ CreateGaugeVector p name namespace subsystem help labels labelNames reg
       = Returned (None, Some (missing "gauge vector")) reg
     /\ CreateHistogramVector p name namespace subsystem help labels labelNames buckets reg
       = Returned (None, Some (missing "histogram")) reg)
  /\ (name <> "" -> help <> "" ->
     CreateCounter p name namespace subsystem help labels reg = registered (Counter o)
     /\ CreateGauge p name namespace subsystem help labels reg = registered (Gauge o)
     /\ CreateHistogram p name namespace subsystem help labels buckets reg
       = match newHistogramPanic p h with
         | Some reason => Panicked reason reg
         | None => registered (Histogram h)
         end
     /\ CreateCounterVector p name namespace subsystem help labels labelNames reg
       = registered (CounterVec o labelNames)
     /\ CreateGaugeVector p name namespace subsystem help labels labelNames reg
       = registered (GaugeVec o labelNames)
     /\ CreateHistogramVector p name namespace subsystem help labels labelNames buckets reg
       = registered (HistogramVec h labelNames)).
Proof.
  intros o h registered. split.
  - intros H. unfold CreateCounter, CreateGauge, CreateHistogram, CreateCounterVector,
      CreateGaugeVector, CreateHistogramVector.
    rewrite !decide_True by done. repeat split.
  - intros Hn Hh. unfold CreateCounter, CreateGauge, CreateHistogram, CreateCounterVector,
      CreateGaugeVector, CreateHistogramVector, MustRegister, registered.
    rewrite !decide_False by tauto. cbv zeta. fold o. fold h.
    repeat split; try (destruct (newHistogramPanic p h); [reflexivity|]);
      by destruct (register p reg _).
Qed.

(** *** Counter vectors *)

Lemma Add_zero (counter : list string) (v : Vec) :
  Add counter 0 v =
  Returned tt
    {| variableLabels := variableLabels v;
       children := alter (fun y => (y + 0)%float) counter (children v) |}.
Proof. reflexivity. Qed.

(** A vector whose number of label names is not one refuses every single
    label value. *)
Lemma InitCounterVector_refused accepts (v : Vec) (labels : list string) :
  length (variableLabels v) <> 1%nat -> InitCounterVector accepts v labels = Returned tt v.
Proof.
  intros Hn. induction labels as [|l ls IH]; [reflexivity|].
  cbn [InitCounterVector]. unfold GetMetricWithLabelValues. cbn [length].
  destruct (Nat.eqb_spec 1 (length (variableLabels v))) as [H|_]; [by rewrite <- H in Hn|].
  exact IH.
Qed.

(** One turn of the loop on a vector with one label name. *)
Lemma InitCounterVector_cons accepts (v : Vec) (l : string) (ls : list string) :
  length (variableLabels v) = 1%nat ->
  exists v1,
    InitCounterVector accepts v (l :: ls) = InitCounterVector accepts v1 ls
    /\ variableLabels v1 = variableLabels v
    /\ forall key,
         (is_Some (children v1 !! key) <->
            is_Some (children v !! key) \/ (accepts l = true /\ key = [l]))
         /\ (atZero v key -> atZero v1 key)
         /\ (key <> [l] -> children v1 !! key = children v !! key).
Proof.
  intros Hn. cbn [InitCounterVector]. unfold GetMetricWithLabelValues. cbn [length forallb].
  rewrite Hn, Nat.eqb_refl, andb_true_r. cbn [negb].
  destruct (accepts l) eqn:Hacc; cbn [negb].
  - rewrite Add_zero. eexists. split; [reflexivity|].
    destruct (children v !! [l]) as [x|] eqn:Hl; cbn [variableLabels children];
      (split; [reflexivity|]); intros key; unfold atZero; cbn [children];
      (destruct (decide (key = [l])) as [->|Hne];
       [rewrite ?lookup_alter_eq, ?lookup_insert_eq, ?Hl; cbn [fmap option_fmap option_map]
       |rewrite ?lookup_alter_ne, ?lookup_insert_ne by done]).
    + split; [split; eauto|]. split; [|done].
      intros [H|[= ->]]; [discriminate|]. by right.
    + split; [tauto|]. split; [done|]. tauto.
    + split; [split; eauto|]. split; [|done]. intros _. by right.
    + split; [tauto|]. split; [done|]. tauto.
  - exists v. split; [reflexivity|]. split; [reflexivity|]. intros key.
    repeat split; try tauto. intros [H|[H _]]; done.
Qed.

(** X12. [InitCounterVector] never fails and never panics.  On a vector
    whose number of label names is not one it changes nothing: every label
    is refused and the refusal is dropped.  On a vector with one label name
    the counters it has afterwards are those it had and one for each label
    the client accepts; a counter that was absent or at 0 is absent or at
    0, so the new ones start at 0; the counters of other label values are
    untouched. *)
Theorem InitCounterVector_initializes accepts (counterVec : Vec) (labels : list string) :
  exists v',
    InitCounterVector accepts counterVec labels = Returned tt v'
    /\ variableLabels v' = variableLabels counterVec
    /\ (length (variableLabels counterVec) <> 1%nat -> v' = counterVec)
    /\ (length (variableLabels counterVec) = 1%nat ->
        forall key,
          (is_Some (children v' !! key) <->
             is_Some (children counterVec !! key)
             \/ exists l, l ∈ labels /\ accepts l = true /\ key = [l])
          /\ (atZero counterVec key -> atZero v' key)
          /\ ((forall l, l ∈ labels -> key <> [l]) ->
              children v' !! key = children counterVec !! key)).
Proof.
  destruct (decide (length (variableLabels counterVec) = 1%nat)) as [Hn|Hn].
  2:{ exists counterVec. split; [by apply InitCounterVector_refused|].
      split; [done|]. split; [done|]. intros H. by destruct Hn. }
  revert counterVec Hn. induction labels as [|l ls IH]; intros v Hn.
  - exists v. split; [reflexivity|]. split; [done|]. split; [done|]. intros _ key.
    repeat split; try tauto.
    intros [H|(l & Hl & _)]; [done|]. by apply elem_of_nil in Hl.
  - destruct (InitCounterVector_cons accepts v l ls Hn) as (v1 & Heq & Hv1 & Hstep).
    destruct (IH v1 ltac:(congruence)) as (v' & Hrun & Hv' & _ & Hrest).
    exists v'. split; [by rewrite Heq|]. split; [congruence|].
    split; [intros H; by destruct H|]. intros _ key.
    destruct (Hrest ltac:(congruence) key) as (Hdom & Hzero & Hsame).
    destruct (Hstep key) as (Hdom1 & Hzero1 & Hsame1).
    split; [|split].
    + rewrite Hdom, Hdom1. split.
      * intros [[H|[Ha ->]]|(l' & Hl' & Ha & ->)]; [by left|right..].
        -- exists l. split; [by left|done].
        -- exists l'. split; [by right|done].
      * intros [H|(l' & Hl' & Ha & ->)]; [by left; left|].
        apply elem_of_cons in Hl' as [->|Hl']; [left; right; done|].
        right. by exists l'.
    + intros H. by apply Hzero, Hzero1.
    + intros H. rewrite Hsame, Hsame1; [done| |].
      * apply H. by left.
      * intros l' Hl'. apply H. by right.
Qed.

(** *** The metrics server *)

Lemma Handle_fresh (pattern : string) (mux : Mux) :
  pattern ∉ mux -> Handle pattern mux = Returned tt (pattern :: mux).
Proof. intros H. unfold Handle. by rewrite decide_False. Qed.

Lemma Handle_again (pattern : string) (mux : Mux) :
  pattern ∈ mux ->
  Handle pattern mux = Panicked ("http: multiple registrations for " +:+ pattern) mux.
Proof. intros H. unfold Handle. by rewrite decide_True. Qed.

(** X13. [StartPrometheusMetricsServer] when listening fails, on a logger
    whose mutex is free.  The handler is registered under /metrics and the
    address is a colon and the port in decimal.  With the threshold of the
    logger above the error level nothing is logged and the error of
    [ListenAndServe] is returned.  Otherwise one line is written, the error
    record of the message that ends in the text of the error; the error is
    returned when that write succeeds, whatever [Error] returned; and when
    the write fails the call never returns (the logger waits for its own
    mutex). *)
Theorem StartPrometheusMetricsServer_failure os ListenAndServe fuel name lg port mux w err :
  "/metrics" ∉ mux ->
  ListenAndServe (":" +:+ formatInt port) = Stopped (Some err) ->
  logger.lock lg = false -> (2 <= fuel)%nat ->
  let start := StartPrometheusMetricsServer os ListenAndServe fuel name lg port mux w in
  let msg := "Error starting Prometheus metrics server: " +:+ err in
  let c := logger.WriteString (logger.writer lg)
             (logger.lineOf os lg msg logger.ErrorLevel [] w) in
  (logger.ErrorLevel < logger.LogLevel lg ->
   start = Returned (Some err) ("/metrics" :: mux, (lg, w)))
  /\ (logger.LogLevel lg <= logger.ErrorLevel ->
      (exists j,
         Marshal (logger.entryOf os lg msg logger.ErrorLevel [] w) = inl j
         /\ logger.lineOf os lg msg logger.ErrorLevel [] w = j +:+ Bytes.chr Bytes.newline)
      /\ (logger.respond os w c = None ->
          start = Returned (Some err) ("/metrics" :: mux, (lg, c :: w)))
      /\ (forall e, logger.respond os w c = Some e ->
          start =
          Blocked ("/metrics" :: mux,
                   (logger.setWriter (logger.FileWriter logger.Stdout)
                      (logger.setLock true lg), c :: w)))).
Proof.
  intros Hmux Hserve Hfree Hfuel start msg c. unfold start, StartPrometheusMetricsServer.
  rewrite (Handle_fresh _ _ Hmux), Hserve. fold msg.
  destruct (LoggerFacts.leveled_spec logger.error_ os fuel lg msg [] w Hfree Hfuel)
    as [Hge Hlt].
  change (logger.leveled logger.error_) with logger.Error in Hge, Hlt.
  change (logger.levelOf logger.error_) with logger.ErrorLevel in Hge, Hlt.
  split.
  - intros H. by rewrite (Hlt H).
  - intros H. destruct (Hge H) as [-> _].
    rewrite (LoggerFacts.Log_fuel _ _ _ _ _ _ _ Hfuel), LoggerFacts.Log_spec by done.
    cbv zeta. fold c. split; [|split].
    + destruct (LoggerFacts.Marshal_entryOf os lg msg logger.ErrorLevel [] w) as [j Hj].
      exists j. split; [done|]. by apply LoggerFacts.lineOf_Marshal.
    + by intros ->.
    + intros e ->.
      destruct (Z.geb_spec logger.ErrorLevel (logger.LogLevel lg)) as [_|Hlt']; [done|lia].
Qed.

Lemma StartPrometheusMetricsServer_failure_witness :
  StartPrometheusMetricsServer logger.healthy portTaken 2 "svc" logger.quietLogger 9090 [] []
  = Returned (Some "listen tcp :9090: bind: address already in use")
      (["/metrics"], (logger.quietLogger, [])).
Proof.
  destruct (StartPrometheusMetricsServer_failure logger.healthy portTaken 2 "svc"
              logger.quietLogger 9090 [] []
              "listen tcp :9090: bind: address already in use") as [H _].
  - apply not_elem_of_nil.
  - reflexivity.
  - reflexivity.
  - lia.
  - apply H. reflexivity.
Defined.

(** X14. [StartPrometheusMetricsServer] cannot be called again: when a
    first call has returned (listening failed) or is still serving,
    /metrics is registered in the default mux, and a later call panics in
    [http.Handle] before it listens or logs anything. *)
Theorem StartPrometheusMetricsServer_once os ListenAndServe fuel name lg port mux w
    (mux' : Mux) (st : logger.State) :
  "/metrics" ∉ mux ->
  (StartPrometheusMetricsServer os ListenAndServe fuel name lg port mux w
   = Blocked (mux', st)
   \/ exists r,
        StartPrometheusMetricsServer os ListenAndServe fuel name lg port mux w
        = Returned r (mux', st)) ->
  "/metrics" ∈ mux'
  /\ forall os2 serve2 fuel2 name2 lg2 port2 w2,
       StartPrometheusMetricsServer os2 serve2 fuel2 name2 lg2 port2 mux' w2
       = Panicked "http: multiple registrations for /metrics" (mux', (lg2, w2)).
Proof.
  intros Hmux Ho.
  assert (Hm : mux' = "/metrics" :: mux).
  { revert Ho. unfold StartPrometheusMetricsServer. rewrite (Handle_fresh _ _ Hmux).
    destruct (ListenAndServe _) as [|[e|]].
    - intros [[= <- _]|[r [=]]]. done.
    - destruct (logger.Error _ _ _ _ _ _) as [a s|reason s|s|];
        intros [H|[r H]]; try discriminate; by injection H as <-.
    - intros [[=]|[r [= _ <- _]]]. done. }
  subst mux'. split; [by left|]. intros os2 serve2 fuel2 name2 lg2 port2 w2.
  unfold StartPrometheusMetricsServer. rewrite Handle_again by by left. reflexivity.
Qed.

Lemma StartPrometheusMetricsServer_once_witness :
  "/metrics" ∈ ["/metrics"]
  /\ forall os2 serve2 fuel2 name2 lg2 port2 w2,
       StartPrometheusMetricsServer os2 serve2 fuel2 name2 lg2 port2 ["/metrics"] w2
       = Panicked "http: multiple registrations for /metrics" (["/metrics"], (lg2, w2)).
Proof.
  apply (StartPrometheusMetricsServer_once logger.healthy portTaken 2 "svc"
           logger.quietLogger 9090 [] [] ["/metrics"] (logger.quietLogger, [])).
  - apply not_elem_of_nil.
  - right. eexists. reflexivity.
Defined.

End MetricsFacts.

(** ** The mock server *)

Module TesthttpFacts.
Import Go testhttp.

Lemma handler_found (h : Heap) (mock : MockHTTP) (rUrl : string) (r : TestHTTPResponse) :
  find mock rUrl = Some r ->
  handler h mock rUrl =
  [WriteHeader (Status r); HeaderSet "Content-Type" "application/json";
   WriteBody (bytesOf h (Body r))].
Proof. unfold handler. by intros ->. Qed.

Lemma handler_same (h : Heap) (mock mock' : MockHTTP) (rUrl : string) :
  find mock' rUrl = find mock rUrl -> handler h mock' rUrl = handler h mock rUrl.
Proof. unfold handler. by intros ->. Qed.

(** X15. [AddTestData] on a mock whose map is made returns, and from then
    on a request for that URL gets the status given, then the content
    type, then the bytes the slice shows when the request is served: the
    slice is kept, not copied, so writing to its array later changes the
    body.  Requests for other URLs get what they got before, and adding
    data for the same URL again replaces the first.  On a mock whose map is
    nil the call panics. *)
Theorem AddTestData_serves (mock : MockHTTP) (m : gmap string TestHTTPResponse)
    (testUrl : string) (code : Z) (body : Slice) :
  Responses mock = Some m ->
  exists mock',
    AddTestData mock testUrl code body = Returned tt mock'
    /\ (forall h,
          handler h mock' testUrl =
          [WriteHeader code; HeaderSet "Content-Type" "application/json";
           WriteBody (bytesOf h body)])
    /\ (forall h bytes,
          handler (<[array body := bytes]> h) mock' testUrl =
          [WriteHeader code; HeaderSet "Content-Type" "application/json";
           WriteBody (substring (offset body) (len body) bytes)])
    /\ (forall h rUrl, rUrl <> testUrl -> handler h mock' rUrl = handler h mock rUrl)
    /\ (forall code2 body2,
          AddTestData mock' testUrl code2 body2 = AddTestData mock testUrl code2 body2)
    /\ AddTestData {| Responses := None |} testUrl code body =
       Panicked "assignment to entry in nil map" {| Responses := None |}.
Proof.
  intros Hm.
  assert (Hfind : find {| Responses := Some (<[testUrl := {| Status := code; Body := body |}]> m) |}
                    testUrl = Some {| Status := code; Body := body |}).
  { unfold find. cbn [Responses]. apply lookup_insert_eq. }
  eexists. split; [unfold AddTestData; rewrite Hm; reflexivity|].
  split; [|split; [|split; [|split]]].
  - intros h. by rewrite (handler_found _ _ _ _ Hfind).
  - intros h bytes. rewrite (handler_found _ _ _ _ Hfind). cbn [Status Body].
    unfold bytesOf, Heap in *. by rewrite lookup_insert_eq.
  - intros h rUrl Hne. apply handler_same. unfold find. cbn [Responses]. rewrite Hm.
    by apply lookup_insert_ne.
  - intros code2 body2. unfold AddTestData. cbn [Responses]. rewrite Hm.
    by rewrite insert_insert_eq.
  - reflexivity.
Qed.

Lemma AddTestData_serves_witness :
  exists mock',
    AddTestData InitMockHTTP "http://api/ok" 200 okBody = Returned tt mock'
    /\ (forall h,
          handler h mock' "http://api/ok" =
          [WriteHeader 200; HeaderSet "Content-Type" "application/json";
           WriteBody (bytesOf h okBody)])
    /\ (forall h bytes,
          handler (<[array okBody := bytes]> h) mock' "http://api/ok" =
          [WriteHeader 200; HeaderSet "Content-Type" "application/json";
           WriteBody (substring (offset okBody) (len okBody) bytes)])
    /\ (forall h rUrl,
          rUrl <> "http://api/ok" -> handler h mock' rUrl = handler h InitMockHTTP rUrl)
    /\ (forall code2 body2,
          AddTestData mock' "http://api/ok" code2 body2 =
          AddTestData InitMockHTTP "http://api/ok" code2 body2)
    /\ AddTestData {| Responses := None |} "http://api/ok" 200 okBody =
       Panicked "assignment to entry in nil map" {| Responses := None |}.
Proof. apply (AddTestData_serves InitMockHTTP ∅ "http://api/ok" 200 okBody). reflexivity. Defined.

(** X16. A URL without test data gets the status 404, the content type
    and an empty body; every URL does on the mock [InitMockHTTP] returns.
    After [DeleteTestData] the URL is without data, whatever was stored,
    and the other URLs get what they got before; deleting a URL that has
    no data changes nothing (also when the map is nil), and deleting what
    [AddTestData] added to a mock that had no data for the URL gives that
    mock back. *)
Theorem DeleteTestData_forgets (mock : MockHTTP) (testUrl : string) :
  (forall h rUrl mock0, find mock0 rUrl = None -> handler h mock0 rUrl = notFound)
  /\ (forall rUrl, find InitMockHTTP rUrl = None)
  /\ find (DeleteTestData mock testUrl) testUrl = None
  /\ (forall h rUrl, rUrl <> testUrl ->
      handler h (DeleteTestData mock testUrl) rUrl = handler h mock rUrl)
  /\ (find mock testUrl = None -> DeleteTestData mock testUrl = mock)
  /\ (forall code body mock',
        find mock testUrl = None ->
        AddTestData mock testUrl code body = Returned tt mock' ->
        DeleteTestData mock' testUrl = mock).
Proof.
  split; [|split; [|split; [|split; [|split]]]].
  - intros h rUrl mock0 H. unfold handler. by rewrite H.
  - intros rUrl. unfold find, InitMockHTTP. cbn [Responses]. apply lookup_empty.
  - unfold find, DeleteTestData. cbn [Responses].
    destruct (Responses mock) as [m|]; [|reflexivity]. cbn [fmap option_fmap option_map].
    apply lookup_delete_eq.
  - intros h rUrl Hne. apply handler_same. unfold find, DeleteTestData. cbn [Responses].
    destruct (Responses mock) as [m|]; [|reflexivity]. cbn [fmap option_fmap option_map].
    by apply lookup_delete_ne.
  - unfold find, DeleteTestData. destruct mock as [[m|]]; cbn [Responses]; [|reflexivity].
    intros H. cbn [fmap option_fmap option_map]. by rewrite delete_id.
  - intros code body mock'. unfold find, AddTestData, DeleteTestData.
    destruct mock as [[m|]]; cbn [Responses]; [|discriminate].
    intros H [= <-]. cbn [Responses fmap option_fmap option_map].
    by rewrite delete_insert_id.
Qed.

End TesthttpFacts.
